(** * swiftwire: wire codec, server session and client call state machines

    A shallow embedding of
      - include/swiftwire/protocol.hpp  (big-endian helpers, message types),
      - src/server.cpp                  (AsyncServer::Session),
      - src/client.cpp                  (AsyncClient),
    together with the properties of the design document that can be stated
    over it.

    Conventions.
      - A [char] is a [Byte.byte] (an 8-bit pattern); [uint8_t(c)] is [u8 c]
        and [static_cast<char>(z)] is [to_char z].
      - [uint32_t], [uint64_t] and [std::size_t] are [Z] with the wrap-around
        written out ([wrap32], [wrap64]).
      - A member function that mutates [*this] is a function from the object
        state to the object state.
      - A completion callback handed to Boost.Asio is a function of the
        arguments Asio passes to it; the handlers of one object run one at a
        time (the sequential reading of section 5 of the design document). *)

From Stdlib Require Import ZArith List Bool Lia.
From Stdlib Require Import Strings.Byte.
From Stdlib Require Strings.String.
Import ListNotations.
Local Open Scope Z_scope.

(** ** Machine integers and chars *)

Definition wrap32 (z : Z) : Z := z mod 2 ^ 32.
Definition wrap64 (z : Z) : Z := z mod 2 ^ 64.

(** [uint8_t(c)] for a [char] c. *)
Definition u8 (c : byte) : Z := Z.of_N (Byte.to_N c).

(** [static_cast<char>(z)]: the low eight bits of z. *)
Definition to_char (z : Z) : byte :=
  match Byte.of_N (Z.to_N (z mod 256)) with
  | Some c => c
  | None => x00
  end.

(** ** protocol.hpp *)

Module Proto.

Definition MSG_HELLO : Z := 0x01.
Definition MSG_HELLO_ACK : Z := 0x81.

(** [write_u32be(p, v)]: the four chars stored at p[0..3]. *)
Definition write_u32be (v : Z) : list byte :=
  [ to_char (Z.land (Z.shiftr v 24) 0xFF);
    to_char (Z.land (Z.shiftr v 16) 0xFF);
    to_char (Z.land (Z.shiftr v 8) 0xFF);
    to_char (Z.land v 0xFF) ].

(** [p[i]] for a [const char* p] that points at the list p. *)
Definition at_ (p : list byte) (i : nat) : byte := nth i p x00.

(** [read_u32be(p)]. Each operand is a [uint32_t]; the shifts are taken in
    32 bits. *)
Definition read_u32be (p : list byte) : Z :=
  Z.lor (Z.lor (Z.lor (wrap32 (Z.shiftl (u8 (at_ p 0)) 24))
                      (wrap32 (Z.shiftl (u8 (at_ p 1)) 16)))
               (wrap32 (Z.shiftl (u8 (at_ p 2)) 8)))
        (u8 (at_ p 3)).

(** [write_u64be(p, v)]: [for (i = 7; i >= 0; --i) p[7 - i] = ...]; the
    list is in the order of the indices 7 - i = 0 .. 7. *)
Definition write_u64be (v : Z) : list byte :=
  map (fun i => to_char (Z.land (Z.shiftr v (i * 8)) 0xFF))
      [7; 6; 5; 4; 3; 2; 1; 0].

(** [read_u64be(p)]: [v = 0; for (i = 0; i < 8; ++i) v = (v << 8) | p[i]]. *)
Definition read_u64be (p : list byte) : Z :=
  fold_left (fun v i => Z.lor (wrap64 (Z.shiftl v 8)) (u8 (at_ p i)))
            (seq 0 8) 0.

End Proto.

(** ** Boost.Asio error codes *)

(** The [boost::system::error_code] values the two classes name, and [sys n]
    for any other failure the operating system reports.  [ok] is the
    default-constructed code: [if (ec)] is [failed ec]. *)
Inductive error_code : Type :=
| ok
| operation_aborted
| timed_out
| message_size
| no_buffer_space
| invalid_argument
| fault
| sys (n : Z).

Definition failed (ec : error_code) : bool :=
  match ec with ok => false | _ => true end.

Definition is_aborted (ec : error_code) : bool :=
  match ec with operation_aborted => true | _ => false end.

(** ** Buffers *)

(** [v.resize(n)] on a [std::vector<char>]: keeps the first n chars and
    pads with zero chars. *)
Definition resize (v : list byte) (n : Z) : list byte :=
  firstn (Z.to_nat n) v ++ repeat x00 (Z.to_nat n - length v).

(** What a read that transferred [data] leaves in the buffer [buf]: the
    first chars are overwritten, the size of the buffer does not change. *)
Definition fill (buf data : list byte) : list byte :=
  firstn (length buf) data ++ skipn (length data) buf.

(** Stores [bytes] at [p + off] inside the buffer [buf]. *)
Definition store (buf : list byte) (off : nat) (bytes : list byte) : list byte :=
  firstn off buf ++ bytes ++ skipn (off + length bytes) buf.

(** [std::vector<char>::size()] as a [std::size_t]. *)
Definition size (v : list byte) : Z := Z.of_nat (length v).

(** ** server.cpp: AsyncServer::Session *)

Module Server.

(** server.hpp: ServerConfig.  [threads] defaults to the hardware
    concurrency, which the caller supplies. *)
Record ServerConfig : Type := {
  threads : Z;
  idle_timeout : Z;             (* seconds *)
  max_frame : Z;
  max_write_queue_bytes : Z;
  tcp_nodelay : bool
}.

Definition default_config (hardware_concurrency : Z) : ServerConfig :=
  {| threads := Z.max 1 hardware_concurrency;
     idle_timeout := 60;
     max_frame := Z.shiftl 1 20;
     max_write_queue_bytes := Z.shiftl 8 20;
     tcp_nodelay := true |}.

(** The calls a session makes on [socket_] and [timer_]. *)
Inductive Call : Type :=
| set_no_delay
| timer_expires_after (seconds : Z)
| timer_async_wait
| timer_cancel
| async_read_lenbuf
| async_read_body (n : Z)
| async_write (buf : list byte)
| socket_shutdown_both
| socket_close.

(** Which [async_read] is outstanding. *)
Inductive ReadOp : Type := RdLen | RdBody.

(** The data members of Session, followed by the model of what the session
    has asked of Asio: [calls] is the history of calls on [socket_] and
    [timer_] (oldest first), [read_op] and [write_op] are the operations
    whose completion handler has not run yet, [fail_ec] is the argument of
    the [fail_and_close] that closed the session (the code drops it:
    [(void)ec]). *)
Record Session : Type := {
  cfg_ : ServerConfig;
  lenbuf_ : list byte;
  body_ : list byte;
  write_queue_ : list (list byte);
  pending_bytes_ : Z;
  closed_ : bool;
  calls : list Call;
  read_op : option ReadOp;
  write_op : bool;
  fail_ec : option error_code
}.

Definition with_lenbuf (v : list byte) (s : Session) : Session :=
  {| cfg_ := cfg_ s; lenbuf_ := v; body_ := body_ s;
     write_queue_ := write_queue_ s; pending_bytes_ := pending_bytes_ s;
     closed_ := closed_ s; calls := calls s; read_op := read_op s;
     write_op := write_op s; fail_ec := fail_ec s |}.

Definition with_body (v : list byte) (s : Session) : Session :=
  {| cfg_ := cfg_ s; lenbuf_ := lenbuf_ s; body_ := v;
     write_queue_ := write_queue_ s; pending_bytes_ := pending_bytes_ s;
     closed_ := closed_ s; calls := calls s; read_op := read_op s;
     write_op := write_op s; fail_ec := fail_ec s |}.

Definition with_write_queue (q : list (list byte)) (s : Session) : Session :=
  {| cfg_ := cfg_ s; lenbuf_ := lenbuf_ s; body_ := body_ s;
     write_queue_ := q; pending_bytes_ := pending_bytes_ s;
     closed_ := closed_ s; calls := calls s; read_op := read_op s;
     write_op := write_op s; fail_ec := fail_ec s |}.

Definition with_pending_bytes (n : Z) (s : Session) : Session :=
  {| cfg_ := cfg_ s; lenbuf_ := lenbuf_ s; body_ := body_ s;
     write_queue_ := write_queue_ s; pending_bytes_ := n;
     closed_ := closed_ s; calls := calls s; read_op := read_op s;
     write_op := write_op s; fail_ec := fail_ec s |}.

Definition with_read_op (r : option ReadOp) (s : Session) : Session :=
  {| cfg_ := cfg_ s; lenbuf_ := lenbuf_ s; body_ := body_ s;
     write_queue_ := write_queue_ s; pending_bytes_ := pending_bytes_ s;
     closed_ := closed_ s; calls := calls s; read_op := r;
     write_op := write_op s; fail_ec := fail_ec s |}.

Definition with_write_op (w : bool) (s : Session) : Session :=
  {| cfg_ := cfg_ s; lenbuf_ := lenbuf_ s; body_ := body_ s;
     write_queue_ := write_queue_ s; pending_bytes_ := pending_bytes_ s;
     closed_ := closed_ s; calls := calls s; read_op := read_op s;
     write_op := w; fail_ec := fail_ec s |}.

(** Appends to the history of calls. *)
Definition call (cs : list Call) (s : Session) : Session :=
  {| cfg_ := cfg_ s; lenbuf_ := lenbuf_ s; body_ := body_ s;
     write_queue_ := write_queue_ s; pending_bytes_ := pending_bytes_ s;
     closed_ := closed_ s; calls := calls s ++ cs; read_op := read_op s;
     write_op := write_op s; fail_ec := fail_ec s |}.

(** [closed_.exchange(true)] found [false]: the flag is set, and the
    argument of the call that closes is noted. *)
Definition mark_closed (ec : error_code) (s : Session) : Session :=
  {| cfg_ := cfg_ s; lenbuf_ := lenbuf_ s; body_ := body_ s;
     write_queue_ := write_queue_ s; pending_bytes_ := pending_bytes_ s;
     closed_ := true; calls := calls s; read_op := read_op s;
     write_op := write_op s; fail_ec := Some ec |}.

(** [Session(socket, cfg)]. *)
Definition new_session (cfg : ServerConfig) : Session :=
  {| cfg_ := cfg; lenbuf_ := [x00; x00; x00; x00]; body_ := [];
     write_queue_ := []; pending_bytes_ := 0; closed_ := false;
     calls := []; read_op := None; write_op := false; fail_ec := None |}.

Definition refresh_timer (s : Session) : Session :=
  call [timer_expires_after (idle_timeout (cfg_ s)); timer_async_wait] s.

Definition cancel_timer (s : Session) : Session := call [timer_cancel] s.

Definition fail_and_close (ec : error_code) (s : Session) : Session :=
  if closed_ s then s
  else call [socket_shutdown_both; socket_close]
            (cancel_timer (mark_closed ec s)).

(** The handler of [timer_.async_wait] in [refresh_timer]. *)
Definition on_timer (ec : error_code) (s : Session) : Session :=
  if is_aborted ec then s else fail_and_close timed_out s.

Definition do_write (s : Session) : Session :=
  match write_queue_ s with
  | [] => s
  | front :: _ =>
      with_write_op true (call [async_write front] (refresh_timer s))
  end.

Definition enqueue_write (buf : list byte) (s : Session) : Session :=
  let s := with_pending_bytes (wrap64 (pending_bytes_ s + size buf)) s in
  if pending_bytes_ s >? max_write_queue_bytes (cfg_ s)
  then fail_and_close no_buffer_space s
  else
    let idle := match write_queue_ s with [] => true | _ => false end in
    let s := with_write_queue (write_queue_ s ++ [buf]) s in
    if idle then do_write s else s.

(** The buffer [send_hello_ack] builds: [4 + body_len] zero chars, then the
    four stores. *)
Definition hello_ack_buf (id status : Z) : list byte :=
  let body_len := 1 + 8 + 1 in
  let buf := repeat x00 (Z.to_nat (4 + body_len)) in
  let buf := store buf 0 (Proto.write_u32be (wrap32 body_len)) in
  let buf := store buf 4 [to_char Proto.MSG_HELLO_ACK] in
  let buf := store buf 5 (Proto.write_u64be id) in
  store buf 13 [to_char status].

Definition send_hello_ack (id status : Z) (s : Session) : Session :=
  enqueue_write (hello_ack_buf id status) s.

Definition handle_message (s : Session) : Session :=
  let s := cancel_timer s in
  match body_ s with
  | [] => s
  | c :: _ =>
      let type := u8 c in
      if type =? Proto.MSG_HELLO then
        if size (body_ s) <? 1 + 8 then s
        else
          let client_id := Proto.read_u64be (skipn 1 (body_ s)) in
          send_hello_ack client_id 0 s
      else
        if size (body_ s) >=? 1 + 8 then
          let maybe_id := Proto.read_u64be (skipn 1 (body_ s)) in
          send_hello_ack maybe_id 1 s
        else s
  end.

Definition read_len (s : Session) : Session :=
  with_read_op (Some RdLen) (call [async_read_lenbuf] (refresh_timer s)).

Definition read_body (s : Session) : Session :=
  with_read_op (Some RdBody)
    (call [async_read_body (size (body_ s))] (refresh_timer s)).

(** The handler of the [async_read] in [read_len]; [data] is what the read
    transferred into [lenbuf_]. *)
Definition on_read_len (ec : error_code) (data : list byte) (s : Session)
  : Session :=
  let s := with_read_op None (with_lenbuf (fill (lenbuf_ s) data) s) in
  if failed ec then fail_and_close ec s
  else
    let blen := Proto.read_u32be (lenbuf_ s) in
    if (blen =? 0) || (blen >? max_frame (cfg_ s))
    then fail_and_close message_size s
    else read_body (with_body (resize (body_ s) blen) s).

(** The handler of the [async_read] in [read_body]. *)
Definition on_read_body (ec : error_code) (data : list byte) (s : Session)
  : Session :=
  let s := with_read_op None (with_body (fill (body_ s) data) s) in
  if failed ec then fail_and_close ec s
  else read_len (handle_message s).

(** The handler of the [async_write] in [do_write]; n is the number of
    chars written.  [write_queue_.front()] on an empty deque is undefined:
    [None]. *)
Definition on_write (ec : error_code) (n : Z) (s : Session) : option Session :=
  match write_queue_ s with
  | [] => None
  | front :: rest =>
      let s := with_write_op false s in
      let s := with_pending_bytes
                 (wrap64 (pending_bytes_ s - Z.min n (size front))) s in
      let s := with_write_queue rest s in
      Some (if failed ec then fail_and_close ec s
            else match write_queue_ s with
                 | [] => s
                 | _ :: _ => do_write s
                 end)
  end.

Definition start (s : Session) : Session :=
  let s := if tcp_nodelay (cfg_ s) then call [set_no_delay] s else s in
  read_len (refresh_timer s).

(** *** The session driven by Asio *)

(** A completion Asio delivers to the session. *)
Inductive Event : Type :=
| EvTimer (ec : error_code)
| EvReadLen (ec : error_code) (data : list byte)
| EvReadBody (ec : error_code) (data : list byte)
| EvWrite (ec : error_code) (n : Z).

(** What Asio guarantees of a completion: it belongs to an outstanding
    operation; a read or a write transfers no more than its buffer holds,
    and all of it when it reports no error.  A wait on the timer can
    complete at any time. *)
Definition enabled (s : Session) (e : Event) : bool :=
  match e with
  | EvTimer _ => true
  | EvReadLen ec data =>
      match read_op s with
      | Some RdLen =>
          (size data <=? size (lenbuf_ s))
          && (failed ec || (size data =? size (lenbuf_ s)))
      | _ => false
      end
  | EvReadBody ec data =>
      match read_op s with
      | Some RdBody =>
          (size data <=? size (body_ s))
          && (failed ec || (size data =? size (body_ s)))
      | _ => false
      end
  | EvWrite ec n =>
      write_op s &&
      match write_queue_ s with
      | [] => false
      | front :: _ =>
          (0 <=? n) && (n <=? size front) && (failed ec || (n =? size front))
      end
  end.

Definition deliver (e : Event) (s : Session) : option Session :=
  if enabled s e then
    match e with
    | EvTimer ec => Some (on_timer ec s)
    | EvReadLen ec data => Some (on_read_len ec data s)
    | EvReadBody ec data => Some (on_read_body ec data s)
    | EvWrite ec n => on_write ec n s
    end
  else None.

(** The states of a session of configuration cfg: [start()] on a new
    session, then any completions Asio may deliver. *)
Inductive reachable (cfg : ServerConfig) : Session -> Prop :=
| reach_start : reachable cfg (start (new_session cfg))
| reach_step s e s' :
    reachable cfg s -> deliver e s = Some s' -> reachable cfg s'.

(** Runs a list of completions. *)
Fixpoint run (es : list Event) (s : Session) : option Session :=
  match es with
  | [] => Some s
  | e :: es' =>
      match deliver e s with
      | Some s' => run es' s'
      | None => None
      end
  end.

(** The byte total of a queue of frames. *)
Definition queued_bytes (q : list (list byte)) : Z :=
  fold_right (fun buf acc => size buf + acc) 0 q.

End Server.

(** ** client.cpp: AsyncClient *)

Module Client.

(** An operation handed to Asio whose completion handler has not run yet:
    still in flight, or cancelled (its handler is still to run, normally
    with [operation_aborted]). *)
Inductive Status : Type := in_flight | cancelled.

(** The asynchronous operations the client starts on [socket_].  A write
    holds a view of its buffer (where it is and how many chars), not the
    chars: [op_write n] is a write of n chars. *)
Inductive SockOp : Type :=
| op_connect
| op_write (n : Z)
| op_read_lenbuf
| op_read_body (n : Z).

(** An invocation of the caller's handler: a [ConnectHandler] gets an error
    code, a [HelloHandler] an error code, an id and a status. *)
Inductive Handled : Type :=
| connect_result (ec : error_code)
| hello_result (ec : error_code) (id status : Z).

(** The client and the call in progress on it.
    [socket_open], [no_delay], [lenbuf_], [body_]: the members [socket_]
    (open or not, the TCP_NODELAY option), [lenbuf_] and [body_].
    [timer_wait], [resolve_op], [socket_op]: the operations of the call
    whose handler has not run yet: its wait on [timer_], its resolve on
    [resolver_] and its operation on [socket_].
    [done], [client_id]: what the lambdas of the call capture (the flag
    [*done], allocated by the call, and the id presented).
    [handled]: the invocations of the call's handler, oldest first. *)
Record State : Type := {
  socket_open : bool;
  no_delay : bool;
  lenbuf_ : list byte;
  body_ : list byte;
  timer_wait : option Status;
  resolve_op : option Status;
  socket_op : option (SockOp * Status);
  done : bool;
  client_id : Z;
  handled : list Handled
}.

Definition with_socket_open (b : bool) (s : State) : State :=
  {| socket_open := b; no_delay := no_delay s; lenbuf_ := lenbuf_ s;
     body_ := body_ s; timer_wait := timer_wait s;
     resolve_op := resolve_op s; socket_op := socket_op s; done := done s;
     client_id := client_id s; handled := handled s |}.

Definition with_no_delay (b : bool) (s : State) : State :=
  {| socket_open := socket_open s; no_delay := b; lenbuf_ := lenbuf_ s;
     body_ := body_ s; timer_wait := timer_wait s;
     resolve_op := resolve_op s; socket_op := socket_op s; done := done s;
     client_id := client_id s; handled := handled s |}.

Definition with_lenbuf (v : list byte) (s : State) : State :=
  {| socket_open := socket_open s; no_delay := no_delay s; lenbuf_ := v;
     body_ := body_ s; timer_wait := timer_wait s;
     resolve_op := resolve_op s; socket_op := socket_op s; done := done s;
     client_id := client_id s; handled := handled s |}.

Definition with_body (v : list byte) (s : State) : State :=
  {| socket_open := socket_open s; no_delay := no_delay s;
     lenbuf_ := lenbuf_ s; body_ := v; timer_wait := timer_wait s;
     resolve_op := resolve_op s; socket_op := socket_op s; done := done s;
     client_id := client_id s; handled := handled s |}.

Definition with_timer_wait (w : option Status) (s : State) : State :=
  {| socket_open := socket_open s; no_delay := no_delay s;
     lenbuf_ := lenbuf_ s; body_ := body_ s; timer_wait := w;
     resolve_op := resolve_op s; socket_op := socket_op s; done := done s;
     client_id := client_id s; handled := handled s |}.

Definition with_resolve_op (r : option Status) (s : State) : State :=
  {| socket_open := socket_open s; no_delay := no_delay s;
     lenbuf_ := lenbuf_ s; body_ := body_ s; timer_wait := timer_wait s;
     resolve_op := r; socket_op := socket_op s; done := done s;
     client_id := client_id s; handled := handled s |}.

Definition with_socket_op (o : option (SockOp * Status)) (s : State) : State :=
  {| socket_open := socket_open s; no_delay := no_delay s;
     lenbuf_ := lenbuf_ s; body_ := body_ s; timer_wait := timer_wait s;
     resolve_op := resolve_op s; socket_op := o; done := done s;
     client_id := client_id s; handled := handled s |}.

Definition with_done (b : bool) (s : State) : State :=
  {| socket_open := socket_open s; no_delay := no_delay s;
     lenbuf_ := lenbuf_ s; body_ := body_ s; timer_wait := timer_wait s;
     resolve_op := resolve_op s; socket_op := socket_op s; done := b;
     client_id := client_id s; handled := handled s |}.

(** A new call: [std::make_shared<bool>(false)] gives it a [done] flag of
    its own, it captures the id, and its handler has not been invoked.
    The handlers of operations an earlier call left outstanding hold the
    flag and the handler of that call, not of this one: those operations
    are not operations of the new call. *)
Definition new_call (id : Z) (s : State) : State :=
  {| socket_open := socket_open s; no_delay := no_delay s;
     lenbuf_ := lenbuf_ s; body_ := body_ s; timer_wait := timer_wait s;
     resolve_op := None; socket_op := None; done := false;
     client_id := id; handled := [] |}.

(** [handler(...)]. *)
Definition handler (h : Handled) (s : State) : State :=
  {| socket_open := socket_open s; no_delay := no_delay s;
     lenbuf_ := lenbuf_ s; body_ := body_ s; timer_wait := timer_wait s;
     resolve_op := resolve_op s; socket_op := socket_op s; done := done s;
     client_id := client_id s; handled := handled s ++ [h] |}.

(** [AsyncClient(io)]: a socket that is not open, nothing outstanding. *)
Definition new_client : State :=
  {| socket_open := false; no_delay := false;
     lenbuf_ := [x00; x00; x00; x00]; body_ := [];
     timer_wait := None; resolve_op := None; socket_op := None;
     done := false; client_id := 0; handled := [] |}.

(** *** What the calls on the Asio objects do *)

(** [timer_.expires_after(timeout); timer_.async_wait(...)]: a wait is
    outstanding (one that was, is cancelled by [expires_after]). *)
Definition arm_timer (timeout : Z) (s : State) : State :=
  with_timer_wait (Some in_flight) s.

(** [timer_.cancel()]: the outstanding wait, if any, is cancelled. *)
Definition cancel_timer (s : State) : State :=
  with_timer_wait (option_map (fun _ => cancelled) (timer_wait s)) s.

(** [socket_.cancel(ig)]: the outstanding operation on the socket, if any,
    is cancelled.  A resolve belongs to [resolver_] and is not touched. *)
Definition socket_cancel (s : State) : State :=
  with_socket_op
    (option_map (fun o => (fst o, cancelled)) (socket_op s)) s.

(** [socket_.shutdown(shutdown_both, ec)]: the error code goes to a local
    that is not read. *)
Definition socket_shutdown (s : State) : State := s.

(** [socket_.close(ig)]: cancels what is outstanding and releases the
    socket; on a socket that is not open it does nothing. *)
Definition socket_close (s : State) : State :=
  with_socket_open false (socket_cancel s).

(** [AsyncClient::close()]. *)
Definition close (s : State) : State :=
  socket_close (socket_shutdown (cancel_timer s)).

(** *** async_connect *)

Definition async_connect (host port : String.string) (timeout : Z)
  (s : State) : State :=
  let s := new_call 0 s in
  let s := arm_timer timeout s in
  with_resolve_op (Some in_flight) s.

(** The handler [arm_timer] gives to [timer_.async_wait], around the
    [on_timeout] lambda of [async_connect]. *)
Definition connect_on_timer (tec : error_code) (s : State) : State :=
  let s := with_timer_wait None s in
  if is_aborted tec then s
  else if done s then s
  else
    let s := with_done true s in
    let s := socket_close (socket_cancel s) in
    handler (connect_result timed_out) s.

(** The handler of [resolver_.async_resolve]. *)
Definition on_resolve (ec : error_code) (s : State) : State :=
  let s := with_resolve_op None s in
  if done s then s
  else if failed ec then
    handler (connect_result ec) (cancel_timer (with_done true s))
  else with_socket_op (Some (op_connect, in_flight)) s.

(** The handler of [boost::asio::async_connect].  A connect that
    succeeded has opened the socket.  [ign] is the error code
    [socket_.set_option(tcp::no_delay(true), ign)] gives: the option is set
    when it is [ok], and the code does not look at it. *)
Definition on_connect (ec2 ign : error_code) (s : State) : State :=
  let s := with_socket_op None s in
  if done s then s
  else
    let s := cancel_timer (with_done true s) in
    let s := if failed ec2 then s
             else
               let s := with_socket_open true s in
               if failed ign then s else with_no_delay true s in
    handler (connect_result ec2) s.

(** *** async_handshake *)

(** The request [async_handshake] builds: [4B len=9][1B type][8B id]. *)
Definition hello_req (client_id : Z) : list byte :=
  let req := repeat x00 (4 + 1 + 8) in
  let req := store req 0 (Proto.write_u32be (1 + 8)) in
  let req := store req 4 [to_char Proto.MSG_HELLO] in
  store req 5 (Proto.write_u64be client_id).

(** [async_handshake]: the request is built in [req], the timer is armed
    and the write of [*req] is started.  No lambda captures [req]: the
    array is released when [async_handshake] returns, while the write may
    still be outstanding, so the chars the write sends are not determined
    by the program; the operation records the number of chars only. *)
Definition async_handshake (id : Z) (timeout : Z) (s : State) : State :=
  let req := hello_req id in
  let s := new_call id s in
  let s := arm_timer timeout s in
  with_socket_op (Some (op_write (size req), in_flight)) s.

(** The handler on the timer, around the [on_timeout] lambda of
    [async_handshake]. *)
Definition handshake_on_timer (tec : error_code) (s : State) : State :=
  let s := with_timer_wait None s in
  if is_aborted tec then s
  else if done s then s
  else
    let s := with_done true s in
    let s := socket_cancel s in
    handler (hello_result timed_out 0 0) s.

(** The handler of the [async_write] of the request. *)
Definition on_write (ec : error_code) (s : State) : State :=
  let s := with_socket_op None s in
  if done s then s
  else if failed ec then
    handler (hello_result ec 0 0) (cancel_timer (with_done true s))
  else with_socket_op (Some (op_read_lenbuf, in_flight)) s.

Definition kMax : Z := Z.shiftl 1 20.

(** The handler of the [async_read] into [lenbuf_]. *)
Definition on_read_len (ec2 : error_code) (data : list byte) (s : State)
  : State :=
  let s := with_socket_op None (with_lenbuf (fill (lenbuf_ s) data) s) in
  if done s then s
  else if failed ec2 then
    handler (hello_result ec2 0 0) (cancel_timer (with_done true s))
  else
    let blen := Proto.read_u32be (lenbuf_ s) in
    if (blen <? 1 + 8 + 1) || (blen >? kMax) then
      handler (hello_result invalid_argument 0 0)
              (cancel_timer (with_done true s))
    else
      let s := with_body (resize (body_ s) blen) s in
      with_socket_op (Some (op_read_body (size (body_ s)), in_flight)) s.

(** The handler of the [async_read] into [body_]. *)
Definition on_read_body (ec3 : error_code) (data : list byte) (s : State)
  : State :=
  let s := with_socket_op None (with_body (fill (body_ s) data) s) in
  if done s then s
  else
    let s := cancel_timer (with_done true s) in
    if failed ec3 then handler (hello_result ec3 0 0) s
    else if size (body_ s) <? 1 + 8 + 1 then
      handler (hello_result invalid_argument 0 0) s
    else
      let type := u8 (Proto.at_ (body_ s) 0) in
      if negb (type =? Proto.MSG_HELLO_ACK) then
        handler (hello_result fault 0 0) s
      else
        let echoed := Proto.read_u64be (skipn 1 (body_ s)) in
        if negb (echoed =? client_id s) then
          handler (hello_result fault 0 0) s
        else
          let status := u8 (Proto.at_ (body_ s) (1 + 8)) in
          handler (hello_result ok echoed status) s.

(** *** The calls driven by Asio *)

(** A completion Asio delivers to the client; that of a connect comes with
    the error code [set_option] gives in its handler. *)
Inductive Event : Type :=
| TimerDone (tec : error_code)
| ResolveDone (ec : error_code)
| ConnectDone (ec2 ign : error_code)
| WriteDone (ec : error_code)
| ReadLenDone (ec2 : error_code) (data : list byte)
| ReadBodyDone (ec3 : error_code) (data : list byte).

Definition is_some {A : Type} (o : option A) : bool :=
  match o with Some _ => true | None => false end.

(** A completion of an [async_connect] call: the handler of an operation
    runs once, when the operation is outstanding, with whatever error code
    Asio has for it. *)
Definition deliver_connect (e : Event) (s : State) : option State :=
  match e with
  | TimerDone tec =>
      if is_some (timer_wait s) then Some (connect_on_timer tec s) else None
  | ResolveDone ec =>
      if is_some (resolve_op s) then Some (on_resolve ec s) else None
  | ConnectDone ec2 ign =>
      match socket_op s with
      | Some (op_connect, _) => Some (on_connect ec2 ign s)
      | _ => None
      end
  | _ => None
  end.

(** A completion of an [async_handshake] call. *)
Definition deliver_handshake (e : Event) (s : State) : option State :=
  match e with
  | TimerDone tec =>
      if is_some (timer_wait s) then Some (handshake_on_timer tec s) else None
  | WriteDone ec =>
      match socket_op s with
      | Some (op_write _, _) => Some (on_write ec s)
      | _ => None
      end
  | ReadLenDone ec2 data =>
      match socket_op s with
      | Some (op_read_lenbuf, _) => Some (on_read_len ec2 data s)
      | _ => None
      end
  | ReadBodyDone ec3 data =>
      match socket_op s with
      | Some (op_read_body _, _) => Some (on_read_body ec3 data s)
      | _ => None
      end
  | _ => None
  end.

(** Runs a list of completions with one of the two functions above. *)
Fixpoint run (deliver : Event -> State -> option State)
  (es : list Event) (s : State) : option State :=
  match es with
  | [] => Some s
  | e :: es' =>
      match deliver e s with
      | Some s' => run deliver es' s'
      | None => None
      end
  end.

(** Nothing is outstanding: every handler the client gave to Asio has
    run. *)
Definition quiescent (s : State) : bool :=
  negb (is_some (timer_wait s)) && negb (is_some (resolve_op s))
  && negb (is_some (socket_op s)).

End Client.

(** ** server.cpp: AsyncServer (the listener) *)

Module Listener.

(** The steps of the constructor on [acceptor_], in order. *)
Inductive Step : Type := step_open | step_reuse_address | step_bind | step_listen.

(** The place of a step in that order. *)
Definition step_index (st : Step) : nat :=
  match st with
  | step_open => 0
  | step_reuse_address => 1
  | step_bind => 2
  | step_listen => 3
  end.

(** The server: its configuration, the number of [async_accept] whose
    handler has not run yet, and the sessions it has created and started
    (oldest first; the code hands each session to its own handlers). *)
Record AsyncServer : Type := {
  cfg_ : Server.ServerConfig;
  accepts : nat;
  sessions : list Server.Session
}.

(** [AsyncServer(io, ep, cfg)]: the four steps, each with the error code
    the system gives it; the first that fails is thrown as a
    [system_error] ([inl]), and the later steps are not made. *)
Definition construct (cfg : Server.ServerConfig)
  (result : Step -> error_code) : error_code + AsyncServer :=
  if failed (result step_open) then inl (result step_open)
  else if failed (result step_reuse_address) then inl (result step_reuse_address)
  else if failed (result step_bind) then inl (result step_bind)
  else if failed (result step_listen) then inl (result step_listen)
  else inr {| cfg_ := cfg; accepts := 0; sessions := [] |}.

(** [do_accept()]: one more [async_accept] is outstanding. *)
Definition do_accept (a : AsyncServer) : AsyncServer :=
  {| cfg_ := cfg_ a; accepts := S (accepts a); sessions := sessions a |}.

(** [run()]. *)
Definition run (a : AsyncServer) : AsyncServer := do_accept a.

(** The handler of [async_accept]: a session is made and started when the
    accept succeeded; the next accept is started in either case. *)
Definition on_accept (ec : error_code) (a : AsyncServer) : AsyncServer :=
  let a := {| cfg_ := cfg_ a; accepts := pred (accepts a);
              sessions := sessions a |} in
  let a := if failed ec then a
           else {| cfg_ := cfg_ a; accepts := accepts a;
                   sessions := sessions a
                               ++ [Server.start (Server.new_session (cfg_ a))] |} in
  do_accept a.

(** The results of a construction in which the bind fails (address in
    use). *)
Definition bind_fails (st : Step) : error_code :=
  match st with
  | step_bind => sys 98
  | _ => ok
  end.

(** The completions of the accepts, one error code each. *)
Definition accept_all (ecs : list error_code) (a : AsyncServer) : AsyncServer :=
  fold_left (fun a ec => on_accept ec a) ecs a.

End Listener.

(** ** Predicates on sessions and calls *)

Section ServerPredicates.

Import Server.

(** The invariant of a session: a write is outstanding only on a queue
    that is not empty; while the session is open, [pending_bytes_] is the
    byte total of the queue as a [std::size_t]; and when the limit leaves
    room for one more reply below 2^64, it is that total itself, within
    the limit. *)
Definition queue_inv (s : Session) : Prop :=
  (write_op s = true -> write_queue_ s <> [])
  /\ (closed_ s = false ->
      pending_bytes_ s = wrap64 (queued_bytes (write_queue_ s)))
  /\ (0 <= max_write_queue_bytes (cfg_ s) <= 2 ^ 64 - 1 - 14 ->
      closed_ s = false ->
      pending_bytes_ s = queued_bytes (write_queue_ s)
      /\ pending_bytes_ s <= max_write_queue_bytes (cfg_ s)).

(** Two sessions with the same queue, count, flag, outstanding write and
    configuration. *)
Definition same_queue (s s' : Session) : Prop :=
  write_queue_ s' = write_queue_ s
  /\ pending_bytes_ s' = pending_bytes_ s
  /\ closed_ s' = closed_ s
  /\ write_op s' = write_op s
  /\ cfg_ s' = cfg_ s.

(** The calls that tear the socket down. *)
Definition teardown (c : Call) : bool :=
  match c with
  | socket_shutdown_both | socket_close => true
  | _ => false
  end.

Definition teardowns (s : Session) : list Call := filter teardown (calls s).

(** A session has shut its socket down and closed it once if it is closed,
    and never if it is not. *)
Definition close_inv (s : Session) : Prop :=
  teardowns s = if closed_ s then [socket_shutdown_both; socket_close] else [].

(** Two sessions with the same closed flag and tear-down calls. *)
Definition quiet (s s' : Session) : Prop :=
  closed_ s' = closed_ s /\ teardowns s' = teardowns s.

End ServerPredicates.

Section ClientPredicates.

Import Client.

(** The invariant of a call: until [*done] is set the handler has not been
    invoked and the chain of operations is still alive; once it is set the
    handler has been invoked exactly once. *)
Definition call_inv (s : State) : Prop :=
  if done s then length (handled s) = 1%nat
  else handled s = []
       /\ (is_some (resolve_op s) || is_some (socket_op s) = true).

(** What a discarded completion may leave behind: nothing new is
    outstanding. *)
Definition no_new_op (s s' : State) : Prop :=
  (resolve_op s' = None \/ resolve_op s' = resolve_op s)
  /\ (socket_op s' = None \/ socket_op s' = socket_op s).

(** A call is completed with [h]: the handler has been invoked once, with
    [h], and whatever completes afterwards leaves it at that. *)
Definition completed_with (deliver : Event -> State -> option State)
  (h : Handled) (s : State) : Prop :=
  handled s = [h]
  /\ forall (es : list Event) (s' : State),
       run deliver es s = Some s' -> handled s' = [h].

End ClientPredicates.

(** [AsyncClient::close()] leaves the socket closed, with nothing in
    flight on the timer or the socket. *)
Definition client_closed (c : Client.State) : bool :=
  negb (Client.socket_open c)
  && match Client.timer_wait c with
     | Some Client.in_flight => false
     | _ => true
     end
  && match Client.socket_op c with
     | Some (_, Client.in_flight) => false
     | _ => true
     end.

(** The claim, in its own words, for a call in state s whose timer fires:
    the handler gets the time-out, no resolve and no operation on the
    socket stays in flight, and no completion handler of the call runs
    any more. *)
Definition timeout_stops_io (s : Client.State) : Prop :=
  let s' := Client.connect_on_timer ok s in
  Client.handled s' = Client.handled s ++ [Client.connect_result timed_out]
  /\ Client.resolve_op s' <> Some Client.in_flight
  /\ (forall op, Client.socket_op s' <> Some (op, Client.in_flight))
  /\ (forall ec, Client.deliver_connect (Client.ResolveDone ec) s' = None)
  /\ (forall ec2 ign,
        Client.deliver_connect (Client.ConnectDone ec2 ign) s' = None).

Section ConnectExample.

Import Strings.String.

(** A call of [async_connect] on a new client: the resolve is in flight. *)
Definition resolving : Client.State :=
  Client.async_connect "example.org"%string "9000"%string 5000
    Client.new_client.

End ConnectExample.

(** ** Predicates on the history of calls of a session *)

Section HistoryPredicates.

Import Server.

(** The calls that start an operation on the socket. *)
Definition is_io (c : Call) : bool :=
  match c with
  | async_read_lenbuf | async_read_body _ | async_write _ => true
  | _ => false
  end.

(** Scans a history: every call that starts an operation on the socket
    comes right after [timer_.expires_after; timer_.async_wait].  k counts
    how much of that pair the scan has just seen. *)
Fixpoint armed_from (k : nat) (cs : list Call) : bool :=
  match cs with
  | [] => true
  | c :: rest =>
      match c with
      | timer_expires_after _ => armed_from 1 rest
      | timer_async_wait =>
          armed_from (match k with 1%nat => 2 | _ => 0 end) rest
      | async_read_lenbuf | async_read_body _ | async_write _ =>
          match k with
          | 2%nat => armed_from 0 rest
          | _ => false
          end
      | _ => armed_from 0 rest
      end
  end.

(** The frame of the last [async_write] of a history. *)
Definition last_write (cs : list Call) : option (list byte) :=
  fold_left (fun acc c => match c with
                          | async_write buf => Some buf
                          | _ => acc
                          end) cs None.

(** A frame is a HELLO_ACK: what [send_hello_ack] builds for an id of 64
    bits and the status 0 or 1. *)
Definition is_hello_ack (buf : list byte) : Prop :=
  exists id status : Z,
    0 <= id < 2 ^ 64 /\ (status = 0 \/ status = 1)
    /\ buf = hello_ack_buf id status.

(** The write in flight is the write of the head of the queue. *)
Definition write_head_inv (s : Session) : Prop :=
  write_op s = true ->
  exists front rest,
    write_queue_ s = front :: rest /\ last_write (calls s) = Some front.

(** The history of a session passes the scan. *)
Definition armed_inv (s : Session) : Prop := armed_from 0 (calls s) = true.

(** What a session puts on the wire: the write in flight is that of the
    head of the queue, and every frame queued or written is a
    HELLO_ACK. *)
Definition wire_inv (s : Session) : Prop :=
  write_head_inv s
  /\ Forall is_hello_ack (write_queue_ s)
  /\ (forall buf, In (async_write buf) (calls s) -> is_hello_ack buf).

(** The buffers of a session: [lenbuf_] has four chars, [body_] is empty
    or within [max_frame], and a session that is not closed has a read
    outstanding. *)
Definition read_inv (s : Session) : Prop :=
  length (lenbuf_ s) = 4%nat
  /\ (size (body_ s) = 0 \/ 0 < size (body_ s) <= max_frame (cfg_ s))
  /\ (read_op s = Some RdBody -> 0 < size (body_ s) <= max_frame (cfg_ s))
  /\ (closed_ s = false -> read_op s <> None).

(** The error a completion makes the session close with, if any: the
    error of a read or a write, [timed_out] for a wait that was not
    cancelled. *)
Definition event_error (e : Event) : option error_code :=
  match e with
  | EvTimer ec => if is_aborted ec then None else Some timed_out
  | EvReadLen ec _ | EvReadBody ec _ | EvWrite ec _ =>
      if failed ec then Some ec else None
  end.

End HistoryPredicates.

(** ** Predicates on the calls of the client *)

Section ClientResults.

Import Client.

(** An invocation of the handshake handler is sound for the id presented:
    a success carries that id and a status of one byte, a failure carries
    the id 0 and the status 0. *)
Definition sound_result (id : Z) (h : Handled) : Prop :=
  match h with
  | hello_result ec rid status =>
      if failed ec then rid = 0 /\ status = 0
      else rid = id /\ 0 <= status < 256
  | connect_result _ => False
  end.

(** The invariant of a handshake for [id]: the id captured is [id], every
    invocation is sound, and once [*done] is set no wait on the timer is
    in flight. *)
Definition handshake_inv (id : Z) (s : State) : Prop :=
  client_id s = id
  /\ Forall (sound_result id) (handled s)
  /\ (done s = true -> timer_wait s <> Some in_flight).


(** What the handler of a handshake for [id] is given when the body of the
    reply has been read without error. *)
Definition body_verdict (id : Z) (body : list byte) : Handled :=
  if size body <? 1 + 8 + 1 then hello_result invalid_argument 0 0
  else if negb (u8 (Proto.at_ body 0) =? Proto.MSG_HELLO_ACK)
       then hello_result fault 0 0
  else if negb (Proto.read_u64be (skipn 1 body) =? id)
       then hello_result fault 0 0
  else hello_result ok (Proto.read_u64be (skipn 1 body))
         (u8 (Proto.at_ body (1 + 8))).

End ClientResults.

(** ** Frames and states used in the statements *)

(** The 9-byte body of a well-formed HELLO for [id]. *)
Definition hello_body (id : Z) : list byte :=
  to_char Proto.MSG_HELLO :: Proto.write_u64be id.

(** The id the claim names: the last eight bytes of the body. *)
Definition trailing_id (body : list byte) : Z :=
  Proto.read_u64be (skipn (length body - 8) body).

(** Enqueues the frames of a list, first to last. *)
Definition enqueue_all (bufs : list (list byte)) (s : Server.Session)
  : Server.Session :=
  fold_left (fun s buf => Server.enqueue_write buf s) bufs s.

(** A started session of the default configuration: it awaits a length
    prefix. *)
Definition awaiting_length : Server.Session :=
  Server.start (Server.new_session (Server.default_config 1)).

(** A started session that awaits the 5 bytes of a body. *)
Definition awaiting_short_body : Server.Session :=
  Server.on_read_len ok [x00; x00; x00; x05] awaiting_length.

(** The session on which the completion of the body read calls
    [handle_message], once the 9-byte HELLO for the id 42 is in [body_]. *)
Definition hello42_received : Server.Session :=
  Server.with_read_op None
    (Server.with_body (hello_body 42)
       (Server.on_read_len ok (Proto.write_u32be 9) awaiting_length)).

(** The same for the 10-byte body [02 | id 7 | one filler byte]. *)
Definition unknown7_received : Server.Session :=
  Server.with_read_op None
    (Server.with_body ([x02] ++ Proto.write_u64be 7 ++ [x00])
       (Server.on_read_len ok (Proto.write_u32be 10) awaiting_length)).

(** The session after the HELLO for the id 42 has been read: its reply is
    queued and being written. *)
Definition hello42_acked : Server.Session :=
  Server.on_read_body ok (hello_body 42)
    (Server.on_read_len ok (Proto.write_u32be 9) awaiting_length).

(** An open session whose queue may hold 28 bytes. *)
Definition small_queue_session : Server.Session :=
  Server.start
    (Server.new_session
       {| Server.threads := 1; Server.idle_timeout := 60;
          Server.max_frame := 1048576; Server.max_write_queue_bytes := 28;
          Server.tcp_nodelay := true |}).

(** A handshake for the id 42 that times out while the reply is awaited;
    the length prefix of the reply lands afterwards. *)
Definition late_reply : list Client.Event :=
  [Client.WriteDone ok; Client.TimerDone ok;
   Client.ReadLenDone ok [x00; x00; x00; x0a]].

Definition after_late_reply : Client.State :=
  Client.on_read_len ok [x00; x00; x00; x0a]
    (Client.handshake_on_timer ok
       (Client.on_write ok (Client.async_handshake 42 5000 Client.new_client))).

(** The reply of a peer that echoes the id 7 to a handshake for 42, and
    the call after it. *)
Definition wrong_echo : list Client.Event :=
  [Client.WriteDone ok;
   Client.ReadLenDone ok [x00; x00; x00; x0a];
   Client.ReadBodyDone ok (skipn 4 (Server.hello_ack_buf 7 0))].

Definition after_wrong_echo : Client.State :=
  Client.on_read_body ok (skipn 4 (Server.hello_ack_buf 7 0))
    (Client.on_read_len ok [x00; x00; x00; x0a]
       (Client.on_write ok
          (Client.async_handshake 42 5000 Client.new_client))).

(** The call of [resolving] after the resolve and the connect have
    completed without error. *)
Definition connected : Client.State :=
  Client.on_connect ok ok (Client.on_resolve ok resolving).


(** A client whose socket is open, with its timer armed and a read in
    flight. *)
Definition busy_client : Client.State :=
  Client.with_socket_open true
    (Client.on_write ok (Client.async_handshake 42 5000 Client.new_client)).

(** ** Facts about chars and the codec *)

Lemma u8_range (c : byte) : 0 <= u8 c < 256.
Proof.
  unfold u8. pose proof (Byte.to_N_bounded c) as H. lia.
Qed.

Lemma u8_to_char (z : Z) : u8 (to_char z) = z mod 256.
Proof.
  unfold u8, to_char.
  assert (Hr : 0 <= z mod 256 < 256) by (apply Z.mod_pos_bound; lia).
  destruct (Byte.of_N (Z.to_N (z mod 256))) as [c|] eqn:E.
  - apply Byte.to_of_N in E. rewrite E. apply Z2N.id. lia.
  - apply Byte.of_N_None_iff in E. lia.
Qed.

Lemma to_char_u8 (c : byte) : to_char (u8 c) = c.
Proof.
  unfold to_char. rewrite Z.mod_small by apply u8_range.
  unfold u8. rewrite N2Z.id, Byte.of_to_N. reflexivity.
Qed.

Lemma land_FF (z : Z) : Z.land z 0xFF = z mod 256.
Proof. change 0xFF with (Z.ones 8). apply Z.land_ones. lia. Qed.

(** A value below 2^k and a multiple of 2^k share no bit, so their
    bitwise or is their sum. *)
Lemma land_mul_pow2 (hi lo k : Z) :
  0 <= k -> 0 <= lo < 2 ^ k -> Z.land (hi * 2 ^ k) lo = 0.
Proof.
  intros Hk Hlo. apply Z.bits_inj'; intros n Hn.
  rewrite Z.land_spec, Z.bits_0.
  destruct (Z.ltb_spec n k) as [Hlt|Hge].
  - rewrite Z.mul_pow2_bits_low by lia. reflexivity.
  - replace lo with (lo mod 2 ^ k) by (apply Z.mod_small; lia).
    rewrite Z.mod_pow2_bits_high by lia. apply andb_false_r.
Qed.

Lemma lor_mul_pow2 (hi lo k : Z) :
  0 <= k -> 0 <= lo < 2 ^ k -> Z.lor (hi * 2 ^ k) lo = hi * 2 ^ k + lo.
Proof.
  intros Hk Hlo. pose proof (land_mul_pow2 hi lo k Hk Hlo) as H0.
  rewrite <- Z.lxor_lor by exact H0.
  symmetry. apply Z.add_nocarry_lxor. exact H0.
Qed.

(** [read_u32be] as a base-256 number. *)
Lemma read_u32be_arith (p : list byte) :
  Proto.read_u32be p =
  ((u8 (Proto.at_ p 0) * 256 + u8 (Proto.at_ p 1)) * 256
   + u8 (Proto.at_ p 2)) * 256 + u8 (Proto.at_ p 3).
Proof.
  unfold Proto.read_u32be, wrap32.
  pose proof (u8_range (Proto.at_ p 0)) as H0.
  pose proof (u8_range (Proto.at_ p 1)) as H1.
  pose proof (u8_range (Proto.at_ p 2)) as H2.
  pose proof (u8_range (Proto.at_ p 3)) as H3.
  rewrite !Z.shiftl_mul_pow2 by lia.
  rewrite !Z.mod_small by lia.
  rewrite (lor_mul_pow2 _ (u8 (Proto.at_ p 1) * 2 ^ 16) 24) by lia.
  replace (u8 (Proto.at_ p 0) * 2 ^ 24 + u8 (Proto.at_ p 1) * 2 ^ 16)
    with ((u8 (Proto.at_ p 0) * 256 + u8 (Proto.at_ p 1)) * 2 ^ 16) by lia.
  rewrite (lor_mul_pow2 _ (u8 (Proto.at_ p 2) * 2 ^ 8) 16) by lia.
  replace ((u8 (Proto.at_ p 0) * 256 + u8 (Proto.at_ p 1)) * 2 ^ 16
           + u8 (Proto.at_ p 2) * 2 ^ 8)
    with (((u8 (Proto.at_ p 0) * 256 + u8 (Proto.at_ p 1)) * 256
           + u8 (Proto.at_ p 2)) * 2 ^ 8) by lia.
  rewrite (lor_mul_pow2 _ (u8 (Proto.at_ p 3)) 8) by lia.
  lia.
Qed.

Lemma read_u32be_range (p : list byte) : 0 <= Proto.read_u32be p < 2 ^ 32.
Proof.
  rewrite read_u32be_arith.
  pose proof (u8_range (Proto.at_ p 0)).
  pose proof (u8_range (Proto.at_ p 1)).
  pose proof (u8_range (Proto.at_ p 2)).
  pose proof (u8_range (Proto.at_ p 3)).
  lia.
Qed.

(** One iteration of the loop of [read_u64be] on the bytes of
    [write_u64be v]: the accumulator holds the bytes of v above byte k. *)
Lemma be_step (v k acc : Z) :
  0 <= k -> 0 <= v < 2 ^ 64 -> acc = v / 2 ^ (8 * (k + 1)) ->
  Z.lor (wrap64 (Z.shiftl acc 8))
        (u8 (to_char (Z.land (Z.shiftr v (k * 8)) 0xFF)))
  = v / 2 ^ (8 * k).
Proof.
  intros Hk Hv ->.
  rewrite u8_to_char, land_FF, Z.mod_mod by lia.
  rewrite Z.shiftr_div_pow2, Z.shiftl_mul_pow2 by lia.
  replace (k * 8) with (8 * k) by lia.
  replace (8 * (k + 1)) with (8 * k + 8) by lia.
  rewrite Z.pow_add_r by lia.
  assert (Hp : 0 < 2 ^ (8 * k)) by (apply Z.pow_pos_nonneg; lia).
  rewrite <- Z.div_div by lia.
  set (w := v / 2 ^ (8 * k)).
  assert (Hw : 0 <= w <= v).
  { subst w. split; [apply Z.div_pos; lia|].
    apply Z.div_le_upper_bound; nia. }
  change (2 ^ 8) with 256.
  pose proof (Z.div_mod w 256 ltac:(lia)) as Hdm.
  pose proof (Z.mod_pos_bound w 256 ltac:(lia)) as Hm.
  unfold wrap64. rewrite Z.mod_small by lia.
  change (Z.lor (w / 256 * 256) (w mod 256))
    with (Z.lor (w / 256 * 2 ^ 8) (w mod 256)).
  rewrite lor_mul_pow2 by (change (2 ^ 8) with 256; lia).
  change (2 ^ 8) with 256. lia.
Qed.

(** One iteration of the loop of [read_u64be]: while the accumulator is
    below 2^56 the shift does not wrap. *)
Lemma rd_step (acc b : Z) :
  0 <= acc < 2 ^ 56 -> 0 <= b < 256 ->
  Z.lor (wrap64 (Z.shiftl acc 8)) b = acc * 256 + b.
Proof.
  intros Ha Hb. unfold wrap64.
  rewrite Z.shiftl_mul_pow2 by lia.
  rewrite Z.mod_small by lia.
  rewrite lor_mul_pow2 by lia.
  reflexivity.
Qed.

(** [read_u64be] as a base-256 number. *)
Lemma read_u64be_arith (p : list byte) :
  Proto.read_u64be p =
  ((((((u8 (Proto.at_ p 0) * 256 + u8 (Proto.at_ p 1)) * 256
       + u8 (Proto.at_ p 2)) * 256 + u8 (Proto.at_ p 3)) * 256
     + u8 (Proto.at_ p 4)) * 256 + u8 (Proto.at_ p 5)) * 256
   + u8 (Proto.at_ p 6)) * 256 + u8 (Proto.at_ p 7).
Proof.
  unfold Proto.read_u64be. cbn [seq fold_left].
  pose proof (u8_range (Proto.at_ p 0)) as H0.
  pose proof (u8_range (Proto.at_ p 1)) as H1.
  pose proof (u8_range (Proto.at_ p 2)) as H2.
  pose proof (u8_range (Proto.at_ p 3)) as H3.
  pose proof (u8_range (Proto.at_ p 4)) as H4.
  pose proof (u8_range (Proto.at_ p 5)) as H5.
  pose proof (u8_range (Proto.at_ p 6)) as H6.
  pose proof (u8_range (Proto.at_ p 7)) as H7.
  repeat match goal with
         | |- context [Z.lor (wrap64 (Z.shiftl ?a 8)) ?b] =>
             rewrite (rd_step a b) by lia
         end.
  lia.
Qed.

Lemma read_u64be_range (p : list byte) : 0 <= Proto.read_u64be p < 2 ^ 64.
Proof.
  rewrite read_u64be_arith.
  pose proof (u8_range (Proto.at_ p 0)).
  pose proof (u8_range (Proto.at_ p 1)).
  pose proof (u8_range (Proto.at_ p 2)).
  pose proof (u8_range (Proto.at_ p 3)).
  pose proof (u8_range (Proto.at_ p 4)).
  pose proof (u8_range (Proto.at_ p 5)).
  pose proof (u8_range (Proto.at_ p 6)).
  pose proof (u8_range (Proto.at_ p 7)).
  lia.
Qed.

Lemma read_write_u32be (v : Z) :
  0 <= v < 2 ^ 32 -> Proto.read_u32be (Proto.write_u32be v) = v.
Proof.
  intros Hv. rewrite read_u32be_arith.
  unfold Proto.write_u32be, Proto.at_. cbn [nth].
  rewrite !u8_to_char, !land_FF, !Z.mod_mod, !Z.shiftr_div_pow2 by lia.
  change (2 ^ 24) with 16777216. change (2 ^ 16) with 65536.
  change (2 ^ 8) with 256. change (2 ^ 32) with 4294967296 in Hv.
  Z.div_mod_to_equations. lia.
Qed.

Lemma read_write_u64be (v : Z) :
  0 <= v < 2 ^ 64 -> Proto.read_u64be (Proto.write_u64be v) = v.
Proof.
  intros Hv. unfold Proto.read_u64be, Proto.write_u64be, Proto.at_.
  cbn [seq fold_left map nth].
  transitivity (v / 2 ^ (8 * 0)); [|apply Z.div_1_r].
  apply (be_step v 0); [lia|exact Hv|].
  apply (be_step v 1); [lia|exact Hv|].
  apply (be_step v 2); [lia|exact Hv|].
  apply (be_step v 3); [lia|exact Hv|].
  apply (be_step v 4); [lia|exact Hv|].
  apply (be_step v 5); [lia|exact Hv|].
  apply (be_step v 6); [lia|exact Hv|].
  apply (be_step v 7); [lia|exact Hv|].
  symmetry. apply Z.div_small. exact Hv.
Qed.

(** ** C8: the codec round trip *)

(** C8. For every u32 value v, decoding the four big-endian bytes that
    encode v gives v back, and for every u64 value v, decoding the eight
    big-endian bytes that encode v gives v back. *)
Theorem decode_encode_be :
  (forall v, 0 <= v < 2 ^ 32 -> Proto.read_u32be (Proto.write_u32be v) = v)
  /\ (forall v, 0 <= v < 2 ^ 64 -> Proto.read_u64be (Proto.write_u64be v) = v).
Proof. split; [exact read_write_u32be|exact read_write_u64be]. Qed.

Lemma decode_encode_be_witness :
  Proto.read_u32be (Proto.write_u32be 305419896) = 305419896
  /\ Proto.read_u64be (Proto.write_u64be 1311768467463790320)
     = 1311768467463790320.
Proof.
  split.
  - apply (proj1 decode_encode_be). lia.
  - apply (proj2 decode_encode_be). lia.
Defined.
Lemma digit_of_be (hi d lo k : Z) :
  0 <= k -> 0 <= d < 256 -> 0 <= lo < 2 ^ k ->
  Z.land (Z.shiftr (hi * (2 ^ k * 256) + d * 2 ^ k + lo) k) 0xFF = d.
Proof.
  intros Hk Hd Hlo.
  rewrite land_FF, Z.shiftr_div_pow2 by lia.
  assert (Hp : 0 < 2 ^ k) by (apply Z.pow_pos_nonneg; lia).
  replace (hi * (2 ^ k * 256) + d * 2 ^ k + lo)
    with ((hi * 256 + d) * 2 ^ k + lo) by ring.
  rewrite Z.div_add_l by lia.
  rewrite (Z.div_small lo) by lia.
  rewrite Z.add_0_r, Z.add_comm, Z.mod_add by lia.
  apply Z.mod_small. exact Hd.
Qed.

Lemma write_read_u64be (b0 b1 b2 b3 b4 b5 b6 b7 : byte) :
  Proto.write_u64be (Proto.read_u64be [b0; b1; b2; b3; b4; b5; b6; b7])
  = [b0; b1; b2; b3; b4; b5; b6; b7].
Proof.
  rewrite read_u64be_arith. unfold Proto.write_u64be, Proto.at_.
  cbn [nth map].
  pose proof (u8_range b0) as H0. pose proof (u8_range b1) as H1.
  pose proof (u8_range b2) as H2. pose proof (u8_range b3) as H3.
  pose proof (u8_range b4) as H4. pose proof (u8_range b5) as H5.
  pose proof (u8_range b6) as H6. pose proof (u8_range b7) as H7.
  set (X := _ + u8 b7).
  repeat f_equal.
  - transitivity (to_char (u8 b0)); [f_equal|apply to_char_u8].
    replace X with (0 * (2 ^ (7 * 8) * 256) + u8 b0 * 2 ^ (7 * 8)
      + (((((((u8 b1) * 256 + u8 b2) * 256 + u8 b3) * 256 + u8 b4) * 256
            + u8 b5) * 256 + u8 b6) * 256 + u8 b7)) by (subst X; lia).
    apply digit_of_be; lia.
  - transitivity (to_char (u8 b1)); [f_equal|apply to_char_u8].
    replace X with (u8 b0 * (2 ^ (6 * 8) * 256) + u8 b1 * 2 ^ (6 * 8)
      + ((((((u8 b2) * 256 + u8 b3) * 256 + u8 b4) * 256
            + u8 b5) * 256 + u8 b6) * 256 + u8 b7)) by (subst X; lia).
    apply digit_of_be; lia.
  - transitivity (to_char (u8 b2)); [f_equal|apply to_char_u8].
    replace X with ((u8 b0 * 256 + u8 b1) * (2 ^ (5 * 8) * 256)
      + u8 b2 * 2 ^ (5 * 8)
      + (((((u8 b3) * 256 + u8 b4) * 256
            + u8 b5) * 256 + u8 b6) * 256 + u8 b7)) by (subst X; lia).
    apply digit_of_be; lia.
  - transitivity (to_char (u8 b3)); [f_equal|apply to_char_u8].
    replace X with (((u8 b0 * 256 + u8 b1) * 256 + u8 b2)
                    * (2 ^ (4 * 8) * 256)
      + u8 b3 * 2 ^ (4 * 8)
      + ((((u8 b4) * 256 + u8 b5) * 256 + u8 b6) * 256 + u8 b7))
      by (subst X; lia).
    apply digit_of_be; lia.
  - transitivity (to_char (u8 b4)); [f_equal|apply to_char_u8].
    replace X with ((((u8 b0 * 256 + u8 b1) * 256 + u8 b2) * 256 + u8 b3)
                    * (2 ^ (3 * 8) * 256)
      + u8 b4 * 2 ^ (3 * 8)
      + (((u8 b5) * 256 + u8 b6) * 256 + u8 b7))
      by (subst X; lia).
    apply digit_of_be; lia.
  - transitivity (to_char (u8 b5)); [f_equal|apply to_char_u8].
    replace X with (((((u8 b0 * 256 + u8 b1) * 256 + u8 b2) * 256 + u8 b3)
                     * 256 + u8 b4) * (2 ^ (2 * 8) * 256)
      + u8 b5 * 2 ^ (2 * 8) + (u8 b6 * 256 + u8 b7))
      by (subst X; lia).
    apply digit_of_be; lia.
  - transitivity (to_char (u8 b6)); [f_equal|apply to_char_u8].
    replace X with ((((((u8 b0 * 256 + u8 b1) * 256 + u8 b2) * 256 + u8 b3)
                     * 256 + u8 b4) * 256 + u8 b5) * (2 ^ (1 * 8) * 256)
      + u8 b6 * 2 ^ (1 * 8) + u8 b7)
      by (subst X; lia).
    apply digit_of_be; lia.
  - transitivity (to_char (u8 b7)); [f_equal|apply to_char_u8].
    replace X with (((((((u8 b0 * 256 + u8 b1) * 256 + u8 b2) * 256 + u8 b3)
                     * 256 + u8 b4) * 256 + u8 b5) * 256 + u8 b6)
                    * (2 ^ (0 * 8) * 256)
      + u8 b7 * 2 ^ (0 * 8) + 0)
      by (subst X; lia).
    apply digit_of_be; lia.
Qed.

(** [read_u64be] looks at the first eight chars only. *)
Lemma read_u64be_prefix (b0 b1 b2 b3 b4 b5 b6 b7 : byte) (rest : list byte) :
  Proto.read_u64be (b0 :: b1 :: b2 :: b3 :: b4 :: b5 :: b6 :: b7 :: rest)
  = Proto.read_u64be [b0; b1; b2; b3; b4; b5; b6; b7].
Proof. rewrite !read_u64be_arith. reflexivity. Qed.

(** Re-encoding the id read at [p] gives the eight chars at [p] back. *)
Lemma write_read_u64be_firstn (p : list byte) :
  (8 <= length p)%nat ->
  Proto.write_u64be (Proto.read_u64be p) = firstn 8 p.
Proof.
  intros Hp.
  do 8 (destruct p as [|? p]; [cbn [length] in Hp; lia|]).
  rewrite read_u64be_prefix, write_read_u64be. reflexivity.
Qed.

(** ** Facts about buffers *)

Lemma size_nonneg (v : list byte) : 0 <= size v.
Proof. unfold size. lia. Qed.

Lemma fill_full (buf data : list byte) :
  length data = length buf -> fill buf data = data.
Proof.
  intros H. unfold fill. rewrite <- H, firstn_all, H, skipn_all.
  apply app_nil_r.
Qed.

Lemma fill_size (buf data : list byte) :
  size data <= size buf -> size (fill buf data) = size buf.
Proof.
  unfold size, fill. intros H.
  rewrite length_app, length_firstn, length_skipn. lia.
Qed.

Lemma resize_size (v : list byte) (n : Z) :
  0 <= n -> size (resize v n) = n.
Proof.
  unfold size, resize. intros H.
  rewrite length_app, length_firstn, repeat_length. lia.
Qed.

(** ** Facts about the reply frame *)

(** The buffer of [send_hello_ack], field by field:
    [4B len=10][1B type][8B id][1B status]. *)
Lemma hello_ack_buf_fields (id status : Z) :
  Server.hello_ack_buf id status
  = Proto.write_u32be 10 ++ [to_char Proto.MSG_HELLO_ACK]
    ++ Proto.write_u64be id ++ [to_char status].
Proof. reflexivity. Qed.

Lemma hello_ack_buf_size (id status : Z) :
  size (Server.hello_ack_buf id status) = 14.
Proof. reflexivity. Qed.

Lemma hello_ack_buf_bytes (id status : Z) :
  Server.hello_ack_buf id status
  = [x00; x00; x00; x0a; x81] ++ Proto.write_u64be id ++ [to_char status].
Proof. reflexivity. Qed.

(** ** Facts about the write queue *)

Section EnqueueWrite.

Import Server.

Variable buf : list byte.
Variable s : Session.

(** Above the limit: the running total, after
    [pending_bytes_ += buf->size()], exceeds [max_write_queue_bytes]. *)
Lemma enqueue_write_over :
  max_write_queue_bytes (cfg_ s) < wrap64 (pending_bytes_ s + size buf) ->
  enqueue_write buf s
  = fail_and_close no_buffer_space
      (with_pending_bytes (wrap64 (pending_bytes_ s + size buf)) s).
Proof.
  intros H. unfold enqueue_write. cbn [pending_bytes_ with_pending_bytes cfg_].
  rewrite Z.gtb_ltb.
  destruct (Z.ltb_spec (max_write_queue_bytes (cfg_ s))
              (wrap64 (pending_bytes_ s + size buf))); [reflexivity|lia].
Qed.

(** Within the limit. *)
Lemma enqueue_write_within :
  wrap64 (pending_bytes_ s + size buf) <= max_write_queue_bytes (cfg_ s) ->
  write_queue_ (enqueue_write buf s) = write_queue_ s ++ [buf]
  /\ pending_bytes_ (enqueue_write buf s)
     = wrap64 (pending_bytes_ s + size buf)
  /\ closed_ (enqueue_write buf s) = closed_ s
  /\ fail_ec (enqueue_write buf s) = fail_ec s.
Proof.
  intros H. unfold enqueue_write. cbn [pending_bytes_ with_pending_bytes cfg_].
  rewrite Z.gtb_ltb.
  destruct (Z.ltb_spec (max_write_queue_bytes (cfg_ s))
              (wrap64 (pending_bytes_ s + size buf))); [lia|].
  cbn [write_queue_ with_pending_bytes].
  destruct (write_queue_ s) as [|front rest]; unfold do_write; cbn; auto.
Qed.

End EnqueueWrite.

(** ** Facts about the dispatch *)

(** The reply built for the id read at bytes 1..8 of a body, field by
    field. *)
Lemma reply_fields (body : list byte) (status : Z) :
  1 + 8 <= size body -> 0 <= status < 256 ->
  let id := Proto.read_u64be (skipn 1 body) in
  let reply := Server.hello_ack_buf id status in
  reply = [x00; x00; x00; x0a; x81] ++ firstn 8 (skipn 1 body)
          ++ [to_char status]
  /\ Proto.read_u32be reply = 10
  /\ size (skipn 4 reply) = 10
  /\ u8 (Proto.at_ reply 4) = Proto.MSG_HELLO_ACK
  /\ Proto.read_u64be (skipn 5 reply) = id
  /\ u8 (Proto.at_ reply 13) = status.
Proof.
  intros Hsize Hst id reply.
  assert (Hlen : (8 <= length (skipn 1 body))%nat).
  { rewrite length_skipn. unfold size in Hsize. lia. }
  split.
  { subst reply id. rewrite hello_ack_buf_bytes.
    rewrite write_read_u64be_firstn by exact Hlen. reflexivity. }
  split; [reflexivity|].
  split; [reflexivity|].
  split; [reflexivity|].
  split.
  { subst reply. rewrite hello_ack_buf_bytes.
    change (skipn 5 ([x00; x00; x00; x0a; x81]
                     ++ Proto.write_u64be id ++ [to_char status]))
      with (Proto.write_u64be id ++ [to_char status]).
    unfold Proto.write_u64be. cbn [map app]. rewrite read_u64be_prefix.
    apply read_write_u64be. apply read_u64be_range. }
  change (Proto.at_ reply 13) with (to_char status).
  rewrite u8_to_char. apply Z.mod_small. exact Hst.
Qed.

(** [handle_message] on a body of at least 9 bytes: the reply for the id
    at bytes 1..8 is passed to [enqueue_write], with status 0 for the type
    HELLO and status 1 for any other type. *)
Lemma handle_message_long (s : Server.Session) :
  1 + 8 <= size (Server.body_ s) ->
  Server.handle_message s
  = Server.enqueue_write
      (Server.hello_ack_buf
         (Proto.read_u64be (skipn 1 (Server.body_ s)))
         (if u8 (Proto.at_ (Server.body_ s) 0) =? Proto.MSG_HELLO
          then 0 else 1))
      (Server.cancel_timer s).
Proof.
  intros Hsize. unfold Server.handle_message.
  cbn [Server.body_ Server.cancel_timer Server.call].
  destruct (Server.body_ s) as [|c rest] eqn:Eb.
  - cbn in Hsize. lia.
  - change (Proto.at_ (c :: rest) 0) with c.
    destruct (u8 c =? Proto.MSG_HELLO).
    + destruct (Z.ltb_spec (size (c :: rest)) (1 + 8)); [lia|]. reflexivity.
    + rewrite Z.geb_leb.
      destruct (Z.leb_spec (1 + 8) (size (c :: rest))); [|lia]. reflexivity.
Qed.

(** [handle_message] on a body of fewer than 9 bytes only cancels the
    timer. *)
Lemma handle_message_short (s : Server.Session) :
  size (Server.body_ s) < 1 + 8 ->
  Server.handle_message s = Server.cancel_timer s.
Proof.
  intros Hsize. unfold Server.handle_message.
  cbn [Server.body_ Server.cancel_timer Server.call].
  destruct (Server.body_ s) as [|c rest] eqn:Eb; [reflexivity|].
  destruct (u8 c =? Proto.MSG_HELLO).
  - destruct (Z.ltb_spec (size (c :: rest)) (1 + 8)); [reflexivity|lia].
  - rewrite Z.geb_leb.
    destruct (Z.leb_spec (1 + 8) (size (c :: rest))); [lia|reflexivity].
Qed.

(** ** C2: HELLO is acknowledged with status 0 *)

(** C2. A received body of at least 9 bytes whose first byte is 0x01: the
    session reads the big-endian id at bytes 1..8 and hands to
    [enqueue_write] the 14-byte frame [00 00 00 0a | 81 | bytes 1..8 of the
    body | 00]: body length 10, type 0x81, the id echoed, status 0; the
    frame joins the write queue unless the byte limit of the queue is
    exceeded.  For the id 42 the body of the reply is
    [81 00 00 00 00 00 00 00 2a 00]. *)
Theorem hello_acknowledged (s : Server.Session) :
  1 + 8 <= size (Server.body_ s) ->
  u8 (Proto.at_ (Server.body_ s) 0) = Proto.MSG_HELLO ->
  let client_id := Proto.read_u64be (skipn 1 (Server.body_ s)) in
  let reply := Server.hello_ack_buf client_id 0 in
  Server.handle_message s = Server.enqueue_write reply (Server.cancel_timer s)
  /\ reply = [x00; x00; x00; x0a; x81]
             ++ firstn 8 (skipn 1 (Server.body_ s)) ++ [x00]
  /\ Proto.read_u32be reply = 10
  /\ size (skipn 4 reply) = 10
  /\ u8 (Proto.at_ reply 4) = Proto.MSG_HELLO_ACK
  /\ Proto.read_u64be (skipn 5 reply) = client_id
  /\ u8 (Proto.at_ reply 13) = 0
  /\ (wrap64 (Server.pending_bytes_ s + 14)
        <= Server.max_write_queue_bytes (Server.cfg_ s) ->
      Server.write_queue_ (Server.handle_message s)
      = Server.write_queue_ s ++ [reply])
  /\ (Server.body_ s = to_char Proto.MSG_HELLO :: Proto.write_u64be 42 ->
      skipn 4 reply = [x81; x00; x00; x00; x00; x00; x00; x00; x2a; x00]).
Proof.
  intros Hsize Htype client_id reply.
  assert (Hhm : Server.handle_message s
                = Server.enqueue_write reply (Server.cancel_timer s)).
  { rewrite handle_message_long by exact Hsize.
    rewrite Htype, Z.eqb_refl. reflexivity. }
  destruct (reply_fields (Server.body_ s) 0 Hsize ltac:(lia))
    as (Hbytes & Hl & Hb & Ht & Hid & Hst).
  split; [exact Hhm|].
  split; [exact Hbytes|].
  split; [exact Hl|].
  split; [exact Hb|].
  split; [exact Ht|].
  split; [exact Hid|].
  split; [exact Hst|].
  split.
  - intros Hq. rewrite Hhm.
    apply (enqueue_write_within reply (Server.cancel_timer s)).
    exact Hq.
  - intros Hbody. subst reply client_id. rewrite Hbody.
    change (skipn 1 (to_char Proto.MSG_HELLO :: Proto.write_u64be 42))
      with (Proto.write_u64be 42).
    rewrite read_write_u64be by lia. reflexivity.
Qed.

Lemma hello_acknowledged_witness :
  Server.write_queue_ (Server.handle_message hello42_received)
  = [[x00; x00; x00; x0a; x81; x00; x00; x00; x00; x00; x00; x00; x2a; x00]].
Proof.
  destruct (hello_acknowledged hello42_received) as (_ & Hb & _ & _ & _ & _ & _ & Hq & _).
  - vm_compute. discriminate.
  - reflexivity.
  - rewrite Hq.
    + rewrite Hb. reflexivity.
    + vm_compute. discriminate.
Defined.

(** ** C3: any other type is acknowledged with status 1 *)

(** C3, as stated, fails: on the body [02 | id 7 | 00] the last eight bytes
    read as 1792, and the session acknowledges the id 7. *)
Lemma trailing_id_refuted :
  ~ (forall s : Server.Session,
       1 + 8 <= size (Server.body_ s) ->
       u8 (Proto.at_ (Server.body_ s) 0) <> Proto.MSG_HELLO ->
       Server.handle_message s
       = Server.send_hello_ack (trailing_id (Server.body_ s)) 1
           (Server.cancel_timer s)).
Proof.
  intros H. specialize (H unknown7_received).
  assert (H1 : 1 + 8 <= size (Server.body_ unknown7_received))
    by (vm_compute; discriminate).
  assert (H2 : u8 (Proto.at_ (Server.body_ unknown7_received) 0)
               <> Proto.MSG_HELLO) by (vm_compute; discriminate).
  specialize (H H1 H2).
  apply (f_equal Server.write_queue_) in H.
  vm_compute in H. discriminate H.
Qed.

(** C3, amended. A received body of at least 9 bytes whose first byte is
    not 0x01: the session reads the big-endian id at bytes 1..8 (the eight
    bytes after the type byte; they are the last eight only when the body
    has 9 bytes) and hands to [enqueue_write] the frame
    [00 00 00 0a | 81 | bytes 1..8 of the body | 01]; the frame joins the
    write queue unless the byte limit of the queue is exceeded.  For a body
    [02 | id 7 | filler bytes] the reply echoes the id 7 with status 1. *)
Theorem unknown_type_acknowledged (s : Server.Session) :
  1 + 8 <= size (Server.body_ s) ->
  u8 (Proto.at_ (Server.body_ s) 0) <> Proto.MSG_HELLO ->
  let maybe_id := Proto.read_u64be (skipn 1 (Server.body_ s)) in
  let reply := Server.hello_ack_buf maybe_id 1 in
  Server.handle_message s = Server.enqueue_write reply (Server.cancel_timer s)
  /\ reply = [x00; x00; x00; x0a; x81]
             ++ firstn 8 (skipn 1 (Server.body_ s)) ++ [x01]
  /\ Proto.read_u32be reply = 10
  /\ size (skipn 4 reply) = 10
  /\ u8 (Proto.at_ reply 4) = Proto.MSG_HELLO_ACK
  /\ Proto.read_u64be (skipn 5 reply) = maybe_id
  /\ u8 (Proto.at_ reply 13) = 1
  /\ (wrap64 (Server.pending_bytes_ s + 14)
        <= Server.max_write_queue_bytes (Server.cfg_ s) ->
      Server.write_queue_ (Server.handle_message s)
      = Server.write_queue_ s ++ [reply])
  /\ (size (Server.body_ s) = 1 + 8 ->
      trailing_id (Server.body_ s) = maybe_id)
  /\ (forall filler : list byte,
      Server.body_ s = x02 :: Proto.write_u64be 7 ++ filler ->
      skipn 4 reply = [x81; x00; x00; x00; x00; x00; x00; x00; x07; x01]).
Proof.
  intros Hsize Htype maybe_id reply.
  assert (Hhm : Server.handle_message s
                = Server.enqueue_write reply (Server.cancel_timer s)).
  { rewrite handle_message_long by exact Hsize.
    destruct (Z.eqb_spec (u8 (Proto.at_ (Server.body_ s) 0)) Proto.MSG_HELLO);
      [contradiction|reflexivity]. }
  destruct (reply_fields (Server.body_ s) 1 Hsize ltac:(lia))
    as (Hbytes & Hl & Hb & Ht & Hid & Hst).
  split; [exact Hhm|].
  split; [exact Hbytes|].
  split; [exact Hl|].
  split; [exact Hb|].
  split; [exact Ht|].
  split; [exact Hid|].
  split; [exact Hst|].
  split.
  { intros Hq. rewrite Hhm.
    apply (enqueue_write_within reply (Server.cancel_timer s)).
    exact Hq. }
  split.
  - intros H9. unfold trailing_id. subst maybe_id.
    replace (length (Server.body_ s) - 8)%nat with 1%nat
      by (unfold size in H9; lia).
    reflexivity.
  - intros filler Hbody. subst reply maybe_id. rewrite Hbody.
    change (skipn 1 (x02 :: Proto.write_u64be 7 ++ filler))
      with (Proto.write_u64be 7 ++ filler).
    unfold Proto.write_u64be at 1. cbn [map app].
    rewrite read_u64be_prefix.
    change (Proto.read_u64be _)
      with (Proto.read_u64be (Proto.write_u64be 7)).
    rewrite read_write_u64be by lia. reflexivity.
Qed.

Lemma unknown_type_acknowledged_witness :
  Server.write_queue_ (Server.handle_message unknown7_received)
  = [[x00; x00; x00; x0a; x81; x00; x00; x00; x00; x00; x00; x00; x07; x01]].
Proof.
  destruct (unknown_type_acknowledged unknown7_received)
    as (_ & _ & _ & _ & _ & _ & _ & Hq & _ & Hex).
  - vm_compute. discriminate.
  - vm_compute. discriminate.
  - rewrite Hq.
    + f_equal. rewrite <- (Hex [x00] eq_refl). reflexivity.
    + vm_compute. discriminate.
Defined.

(** ** Facts about the read handlers *)

Section ReadHandlers.

Import Server.

Lemma on_read_len_rejects (s : Session) (data : list byte) :
  length (lenbuf_ s) = 4%nat -> length data = 4%nat ->
  Proto.read_u32be data = 0 \/ max_frame (cfg_ s) < Proto.read_u32be data ->
  on_read_len ok data s
  = fail_and_close message_size (with_read_op None (with_lenbuf data s)).
Proof.
  intros Hbuf Hdata HL. unfold on_read_len.
  rewrite fill_full by congruence.
  cbn [failed lenbuf_ with_lenbuf with_read_op cfg_].
  rewrite Z.gtb_ltb.
  destruct (Z.eqb_spec (Proto.read_u32be data) 0); [reflexivity|].
  destruct (Z.ltb_spec (max_frame (cfg_ s)) (Proto.read_u32be data));
    [reflexivity|lia].
Qed.

Lemma on_read_len_accepts (s : Session) (data : list byte) :
  length (lenbuf_ s) = 4%nat -> length data = 4%nat ->
  0 < Proto.read_u32be data <= max_frame (cfg_ s) ->
  on_read_len ok data s
  = read_body (with_body (resize (body_ s) (Proto.read_u32be data))
                 (with_read_op None (with_lenbuf data s))).
Proof.
  intros Hbuf Hdata HL. unfold on_read_len.
  rewrite fill_full by congruence.
  cbn [failed lenbuf_ with_lenbuf with_read_op cfg_ body_].
  rewrite Z.gtb_ltb.
  destruct (Z.eqb_spec (Proto.read_u32be data) 0); [lia|].
  destruct (Z.ltb_spec (max_frame (cfg_ s)) (Proto.read_u32be data));
    [lia|reflexivity].
Qed.

Lemma on_read_body_ok (s : Session) (data : list byte) :
  length data = length (body_ s) ->
  on_read_body ok data s
  = read_len (handle_message (with_read_op None (with_body data s))).
Proof.
  intros Hdata. unfold on_read_body. rewrite fill_full by exact Hdata.
  reflexivity.
Qed.

(** What [fail_and_close] does to a session that is not closed, and to one
    that is. *)
Lemma fail_and_close_open (ec : error_code) (s : Session) :
  closed_ s = false ->
  closed_ (fail_and_close ec s) = true
  /\ fail_ec (fail_and_close ec s) = Some ec
  /\ calls (fail_and_close ec s)
     = calls s ++ [timer_cancel; socket_shutdown_both; socket_close].
Proof.
  intros H. unfold fail_and_close. rewrite H. cbn.
  rewrite <- app_assoc. auto.
Qed.

Lemma fail_and_close_closed (ec : error_code) (s : Session) :
  closed_ s = true -> fail_and_close ec s = s.
Proof. intros H. unfold fail_and_close. rewrite H. reflexivity. Qed.

Lemma fail_and_close_closes (ec : error_code) (s : Session) :
  closed_ (fail_and_close ec s) = true.
Proof. unfold fail_and_close. destruct (closed_ s) eqn:E; [exact E|reflexivity]. Qed.

(** [fail_and_close] touches neither the buffers, nor the queue, nor the
    outstanding operations. *)
Lemma fail_and_close_frame (ec : error_code) (s : Session) :
  cfg_ (fail_and_close ec s) = cfg_ s
  /\ lenbuf_ (fail_and_close ec s) = lenbuf_ s
  /\ body_ (fail_and_close ec s) = body_ s
  /\ write_queue_ (fail_and_close ec s) = write_queue_ s
  /\ pending_bytes_ (fail_and_close ec s) = pending_bytes_ s
  /\ read_op (fail_and_close ec s) = read_op s
  /\ write_op (fail_and_close ec s) = write_op s.
Proof. unfold fail_and_close. destruct (closed_ s); cbn; auto 10. Qed.

(** [enqueue_write] and [handle_message] touch neither the buffers, nor the
    configuration, nor the outstanding read. *)
Lemma enqueue_write_frame (buf : list byte) (s : Session) :
  cfg_ (enqueue_write buf s) = cfg_ s
  /\ lenbuf_ (enqueue_write buf s) = lenbuf_ s
  /\ body_ (enqueue_write buf s) = body_ s
  /\ read_op (enqueue_write buf s) = read_op s.
Proof.
  unfold enqueue_write.
  cbn [pending_bytes_ with_pending_bytes cfg_ write_queue_].
  destruct (_ >? _).
  - unfold fail_and_close. cbn [closed_ with_pending_bytes].
    destruct (closed_ s); cbn; auto.
  - destruct (write_queue_ s); unfold do_write; cbn; auto.
Qed.

Lemma handle_message_frame (s : Session) :
  cfg_ (handle_message s) = cfg_ s
  /\ lenbuf_ (handle_message s) = lenbuf_ s
  /\ body_ (handle_message s) = body_ s
  /\ read_op (handle_message s) = read_op s.
Proof.
  destruct (Z.lt_ge_cases (size (body_ s)) (1 + 8)) as [Hs|Hl].
  - rewrite handle_message_short by exact Hs. cbn. auto.
  - rewrite handle_message_long by lia.
    apply (enqueue_write_frame _ (cancel_timer s)).
Qed.

(** [read_len] touches neither the queue nor the closed flag. *)
Lemma read_len_frame (s : Session) :
  write_queue_ (read_len s) = write_queue_ s
  /\ closed_ (read_len s) = closed_ s
  /\ read_op (read_len s) = Some RdLen.
Proof. repeat split. Qed.

End ReadHandlers.

(** ** C1: the length prefix *)

(** C1. A length prefix of four bytes that decodes to L.  If L is 0 or
    exceeds [max_frame], the handler calls [fail_and_close(message_size)]:
    the session is closed, no body read is started, and a session that was
    open shuts its socket down and closes it.  If 0 < L <= max_frame, the
    session is not closed, [body_] is resized to L and one read of exactly
    L bytes into it is started: the read completes without error only
    with L bytes, which are then the body. *)
Theorem length_prefix_checked (s : Server.Session) (data : list byte) :
  length (Server.lenbuf_ s) = 4%nat -> length data = 4%nat ->
  let L := Proto.read_u32be data in
  let s' := Server.on_read_len ok data s in
  (L = 0 \/ Server.max_frame (Server.cfg_ s) < L ->
     s' = Server.fail_and_close message_size
            (Server.with_read_op None (Server.with_lenbuf data s))
     /\ Server.closed_ s' = true
     /\ Server.read_op s' = None
     /\ (Server.closed_ s = false ->
         Server.fail_ec s' = Some message_size
         /\ Server.calls s'
            = Server.calls s
              ++ [Server.timer_cancel; Server.socket_shutdown_both;
                  Server.socket_close]))
  /\ (0 < L <= Server.max_frame (Server.cfg_ s) ->
     Server.closed_ s' = Server.closed_ s
     /\ Server.fail_ec s' = Server.fail_ec s
     /\ size (Server.body_ s') = L
     /\ Server.read_op s' = Some Server.RdBody
     /\ Server.calls s'
        = Server.calls s
          ++ [Server.timer_expires_after
                (Server.idle_timeout (Server.cfg_ s));
              Server.timer_async_wait; Server.async_read_body L]
     /\ (forall body : list byte,
           Server.enabled s' (Server.EvReadBody ok body) = true
           <-> size body = L)
     /\ (forall body : list byte,
           size body = L ->
           Server.body_ (Server.on_read_body ok body s') = body)).
Proof.
  intros Hbuf Hdata L s'. split.
  - intros HL.
    assert (E : s' = Server.fail_and_close message_size
                       (Server.with_read_op None (Server.with_lenbuf data s)))
      by (apply on_read_len_rejects; assumption).
    split; [exact E|]. rewrite E.
    split; [apply fail_and_close_closes|].
    split.
    + destruct (fail_and_close_frame message_size
                  (Server.with_read_op None (Server.with_lenbuf data s)))
        as (_ & _ & _ & _ & _ & Hr & _).
      rewrite Hr. reflexivity.
    + intros Hopen.
      destruct (fail_and_close_open message_size
                  (Server.with_read_op None (Server.with_lenbuf data s)) Hopen)
        as (_ & Hf & Hc).
      split; [exact Hf|exact Hc].
  - intros HL.
    assert (E : s' = Server.read_body
                       (Server.with_body (resize (Server.body_ s) L)
                          (Server.with_read_op None
                             (Server.with_lenbuf data s))))
      by (apply on_read_len_accepts; assumption).
    assert (Hsz : size (Server.body_ s') = L).
    { rewrite E. cbn. apply resize_size. lia. }
    split; [rewrite E; reflexivity|].
    split; [rewrite E; reflexivity|].
    split; [exact Hsz|].
    split; [rewrite E; reflexivity|].
    split.
    { rewrite E. cbn. rewrite resize_size by lia.
      rewrite <- app_assoc. reflexivity. }
    split.
    + intros body. unfold Server.enabled.
      replace (Server.read_op s') with (Some Server.RdBody)
        by (rewrite E; reflexivity).
      rewrite Hsz. cbn [failed orb].
      destruct (Z.leb_spec (size body) L), (Z.eqb_spec (size body) L);
        cbn; split; intros; try lia; try discriminate; reflexivity.
    + intros body Hbody.
      rewrite on_read_body_ok.
      * unfold Server.read_len. cbn [Server.body_ Server.with_read_op
                                      Server.call Server.refresh_timer].
        destruct (handle_message_frame
                    (Server.with_read_op None (Server.with_body body s')))
          as (_ & _ & Hb & _).
        rewrite Hb. reflexivity.
      * unfold size in Hbody, Hsz. lia.
Qed.

Lemma length_prefix_checked_witness :
  Server.closed_ (Server.on_read_len ok [x00; x00; x00; x00] awaiting_length)
  = true
  /\ Server.read_op
       (Server.on_read_len ok [x00; x00; x00; x09] awaiting_length)
     = Some Server.RdBody.
Proof.
  split.
  - apply (proj1 (length_prefix_checked awaiting_length [x00; x00; x00; x00]
                    eq_refl eq_refl)).
    left. reflexivity.
  - apply (proj2 (length_prefix_checked awaiting_length [x00; x00; x00; x09]
                    eq_refl eq_refl)).
    vm_compute. split; [reflexivity|discriminate].
Defined.

(** ** C4: the byte limit of the write queue *)

Lemma queued_bytes_nonneg (q : list (list byte)) : 0 <= Server.queued_bytes q.
Proof.
  induction q as [|buf q IH]; cbn [Server.queued_bytes fold_right]; [lia|].
  fold (Server.queued_bytes q). pose proof (size_nonneg buf). lia.
Qed.

Lemma queued_bytes_app (q1 q2 : list (list byte)) :
  Server.queued_bytes (q1 ++ q2)
  = Server.queued_bytes q1 + Server.queued_bytes q2.
Proof.
  induction q1 as [|buf q1 IH]; cbn [Server.queued_bytes fold_right app];
    [reflexivity|].
  fold (Server.queued_bytes (q1 ++ q2)). fold (Server.queued_bytes q1).
  rewrite IH. lia.
Qed.

(** Frames whose bytes, added to the running total, stay within the limit
    are all queued, and the session is as open as it was. *)
Lemma enqueue_all_within (bufs : list (list byte)) :
  forall s : Server.Session,
    0 <= Server.pending_bytes_ s ->
    Server.pending_bytes_ s + Server.queued_bytes bufs
      <= Server.max_write_queue_bytes (Server.cfg_ s) ->
    Server.max_write_queue_bytes (Server.cfg_ s) < 2 ^ 64 ->
    Server.closed_ (enqueue_all bufs s) = Server.closed_ s
    /\ Server.write_queue_ (enqueue_all bufs s) = Server.write_queue_ s ++ bufs
    /\ Server.pending_bytes_ (enqueue_all bufs s)
       = Server.pending_bytes_ s + Server.queued_bytes bufs.
Proof.
  induction bufs as [|buf bufs IH]; intros s Hp Hsum Hmax.
  - cbn. rewrite app_nil_r. repeat split; lia.
  - cbn [enqueue_all fold_left]. fold (enqueue_all bufs (Server.enqueue_write buf s)).
    cbn [Server.queued_bytes fold_right] in Hsum.
    fold (Server.queued_bytes bufs) in Hsum.
    pose proof (size_nonneg buf) as Hb.
    pose proof (queued_bytes_nonneg bufs) as Hq.
    assert (Hw : wrap64 (Server.pending_bytes_ s + size buf)
                 = Server.pending_bytes_ s + size buf)
      by (unfold wrap64; apply Z.mod_small; lia).
    destruct (enqueue_write_within buf s) as (Hqueue & Hpend & Hclosed & _);
      [rewrite Hw; lia|].
    destruct (enqueue_write_frame buf s) as (Hcfg & _).
    destruct (IH (Server.enqueue_write buf s)) as (Hc & Hqq & Hpp).
    + rewrite Hpend, Hw. lia.
    + rewrite Hcfg, Hpend, Hw. lia.
    + rewrite Hcfg. exact Hmax.
    + rewrite Hc, Hqq, Hpp, Hclosed, Hqueue, Hpend, Hw.
      cbn [Server.queued_bytes fold_right]. fold (Server.queued_bytes bufs).
      rewrite <- app_assoc. repeat split; cbn [app]; lia.
Qed.

(** C4. [enqueue_write] adds the size of the frame to [pending_bytes_]
    first.  If the new total exceeds [max_write_queue_bytes], it calls
    [fail_and_close(no_buffer_space)] at once: the session is closed and
    the frame is not queued.  If the new total is at most the limit, equal
    to it included, the frame is queued and the session is as open as it
    was; so frames whose sizes add up to exactly the limit, enqueued on an
    open session with nothing pending, leave it open with all of them
    queued. *)
Theorem write_queue_limit (buf : list byte) (s : Server.Session) :
  let total := wrap64 (Server.pending_bytes_ s + size buf) in
  let s' := Server.enqueue_write buf s in
  (Server.max_write_queue_bytes (Server.cfg_ s) < total ->
     s' = Server.fail_and_close no_buffer_space
            (Server.with_pending_bytes total s)
     /\ Server.closed_ s' = true
     /\ Server.write_queue_ s' = Server.write_queue_ s
     /\ (Server.closed_ s = false ->
         Server.fail_ec s' = Some no_buffer_space
         /\ Server.calls s'
            = Server.calls s
              ++ [Server.timer_cancel; Server.socket_shutdown_both;
                  Server.socket_close]))
  /\ (total <= Server.max_write_queue_bytes (Server.cfg_ s) ->
     Server.closed_ s' = Server.closed_ s
     /\ Server.fail_ec s' = Server.fail_ec s
     /\ Server.write_queue_ s' = Server.write_queue_ s ++ [buf]
     /\ Server.pending_bytes_ s' = total)
  /\ (forall bufs : list (list byte),
        Server.closed_ s = false ->
        Server.pending_bytes_ s = 0 ->
        Server.max_write_queue_bytes (Server.cfg_ s) < 2 ^ 64 ->
        Server.queued_bytes bufs = Server.max_write_queue_bytes (Server.cfg_ s) ->
        Server.closed_ (enqueue_all bufs s) = false
        /\ Server.write_queue_ (enqueue_all bufs s)
           = Server.write_queue_ s ++ bufs).
Proof.
  intros total s'. split; [|split].
  - intros Hover.
    assert (E : s' = Server.fail_and_close no_buffer_space
                       (Server.with_pending_bytes total s))
      by (apply enqueue_write_over; exact Hover).
    split; [exact E|]. rewrite E.
    split; [apply fail_and_close_closes|].
    split.
    + destruct (fail_and_close_frame no_buffer_space
                  (Server.with_pending_bytes total s))
        as (_ & _ & _ & Hq & _).
      rewrite Hq. reflexivity.
    + intros Hopen.
      destruct (fail_and_close_open no_buffer_space
                  (Server.with_pending_bytes total s) Hopen) as (_ & Hf & Hc).
      split; [exact Hf|exact Hc].
  - intros Hin.
    destruct (enqueue_write_within buf s Hin) as (Hq & Hp & Hc & Hf).
    auto.
  - intros bufs Hopen Hzero Hmax Hsum.
    destruct (enqueue_all_within bufs s) as (Hc & Hq & _); try lia.
    rewrite Hc, Hq. auto.
Qed.

Lemma write_queue_limit_witness :
  Server.closed_
    (enqueue_all [Server.hello_ack_buf 1 0; Server.hello_ack_buf 2 0]
       small_queue_session) = false
  /\ Server.closed_
       (Server.enqueue_write (Server.hello_ack_buf 3 0)
          (enqueue_all [Server.hello_ack_buf 1 0; Server.hello_ack_buf 2 0]
             small_queue_session)) = true.
Proof.
  split.
  - apply (proj2 (proj2 (write_queue_limit [] small_queue_session))
             [Server.hello_ack_buf 1 0; Server.hello_ack_buf 2 0]);
      reflexivity.
  - apply (proj1 (write_queue_limit (Server.hello_ack_buf 3 0)
                    (enqueue_all [Server.hello_ack_buf 1 0;
                                  Server.hello_ack_buf 2 0]
                       small_queue_session))).
    vm_compute. reflexivity.
Defined.

(** ** C5: a body shorter than 9 bytes is ignored *)

(** C5. A body shorter than 9 bytes, whatever its bytes: the completion of
    the body read leaves the write queue, its byte count, the closed flag
    and the outstanding write as they were; the session only cancels its
    timer, re-arms it and starts the read of the next length prefix (no
    write, no shutdown, no close).  A well-formed HELLO that follows is
    read and acknowledged with status 0. *)
Theorem short_body_ignored (s : Server.Session) (data : list byte) :
  length (Server.lenbuf_ s) = 4%nat ->
  length data = length (Server.body_ s) ->
  size data < 1 + 8 ->
  let s' := Server.on_read_body ok data s in
  Server.write_queue_ s' = Server.write_queue_ s
  /\ Server.pending_bytes_ s' = Server.pending_bytes_ s
  /\ Server.write_op s' = Server.write_op s
  /\ Server.closed_ s' = Server.closed_ s
  /\ Server.fail_ec s' = Server.fail_ec s
  /\ Server.read_op s' = Some Server.RdLen
  /\ Server.calls s'
     = Server.calls s
       ++ [Server.timer_cancel;
           Server.timer_expires_after (Server.idle_timeout (Server.cfg_ s));
           Server.timer_async_wait; Server.async_read_lenbuf]
  /\ (forall id : Z,
        0 <= id < 2 ^ 64 ->
        1 + 8 <= Server.max_frame (Server.cfg_ s) ->
        wrap64 (Server.pending_bytes_ s + 14)
          <= Server.max_write_queue_bytes (Server.cfg_ s) ->
        exists s'' : Server.Session,
          Server.run [Server.EvReadLen ok (Proto.write_u32be (1 + 8));
                      Server.EvReadBody ok (hello_body id)] s' = Some s''
          /\ Server.write_queue_ s''
             = Server.write_queue_ s ++ [Server.hello_ack_buf id 0]
          /\ Server.closed_ s'' = Server.closed_ s
          /\ Server.read_op s'' = Some Server.RdLen).
Proof.
  intros Hbuf Hdata Hshort s'.
  assert (E : s' = Server.read_len
                     (Server.cancel_timer
                        (Server.with_read_op None (Server.with_body data s)))).
  { subst s'. rewrite on_read_body_ok by exact Hdata.
    rewrite handle_message_short by exact Hshort. reflexivity. }
  clearbody s'.
  split; [rewrite E; reflexivity|].
  split; [rewrite E; reflexivity|].
  split; [rewrite E; reflexivity|].
  split; [rewrite E; reflexivity|].
  split; [rewrite E; reflexivity|].
  split; [rewrite E; reflexivity|].
  split.
  { rewrite E. cbn. rewrite <- !app_assoc. reflexivity. }
  intros id Hid Hframe Hqueue.
  set (prefix := Proto.write_u32be (1 + 8)).
  assert (Hpl : length prefix = 4%nat) by reflexivity.
  assert (HL : Proto.read_u32be prefix = 9) by reflexivity.
  assert (Hlb : length (Server.lenbuf_ s') = 4%nat)
    by (rewrite E; exact Hbuf).
  clearbody prefix.
  (* the length prefix is accepted *)
  set (s1 := Server.on_read_len ok prefix s').
  assert (E1 : s1 = Server.read_body
                      (Server.with_body (resize (Server.body_ s') 9)
                         (Server.with_read_op None
                            (Server.with_lenbuf prefix s')))).
  { subst s1. rewrite <- HL. apply on_read_len_accepts; try assumption.
    rewrite HL. replace (Server.cfg_ s') with (Server.cfg_ s)
      by (rewrite E; reflexivity). lia. }
  assert (Hd1 : Server.deliver (Server.EvReadLen ok prefix) s' = Some s1).
  { unfold Server.deliver, Server.enabled.
    replace (Server.read_op s') with (Some Server.RdLen)
      by (rewrite E; reflexivity).
    unfold size. rewrite Hpl, Hlb. reflexivity. }
  clearbody s1.
  (* the body is read and dispatched *)
  assert (Hb1 : length (hello_body id) = length (Server.body_ s1)).
  { rewrite E1. cbn [Server.body_ Server.read_body Server.with_read_op
                      Server.call Server.refresh_timer Server.with_body].
    pose proof (resize_size (Server.body_ s') 9 ltac:(lia)) as Hr.
    unfold size in Hr. change (length (hello_body id)) with 9%nat. lia. }
  set (s2 := Server.on_read_body ok (hello_body id) s1).
  assert (Hd2 : Server.deliver (Server.EvReadBody ok (hello_body id)) s1
                = Some s2).
  { unfold Server.deliver, Server.enabled.
    replace (Server.read_op s1) with (Some Server.RdBody)
      by (rewrite E1; reflexivity).
    unfold size. rewrite Hb1, Z.leb_refl, Z.eqb_refl. reflexivity. }
  exists s2. split.
  { cbn [Server.run]. rewrite Hd1, Hd2. reflexivity. }
  set (s1' := Server.with_read_op None (Server.with_body (hello_body id) s1)).
  assert (E2 : s2 = Server.read_len (Server.handle_message s1'))
    by (apply on_read_body_ok; exact Hb1).
  clearbody s2.
  assert (Hhm : Server.handle_message s1'
                = Server.enqueue_write (Server.hello_ack_buf id 0)
                    (Server.cancel_timer s1')).
  { rewrite handle_message_long by (cbn; lia).
    change (Server.body_ s1') with (hello_body id).
    change (skipn 1 (hello_body id)) with (Proto.write_u64be id).
    rewrite read_write_u64be by exact Hid.
    change (Proto.at_ (hello_body id) 0) with (to_char Proto.MSG_HELLO).
    reflexivity. }
  assert (Hp : Server.pending_bytes_ (Server.cancel_timer s1')
               = Server.pending_bytes_ s)
    by (subst s1'; rewrite E1, E; reflexivity).
  assert (Hc : Server.cfg_ (Server.cancel_timer s1') = Server.cfg_ s)
    by (subst s1'; rewrite E1, E; reflexivity).
  destruct (enqueue_write_within (Server.hello_ack_buf id 0)
              (Server.cancel_timer s1')) as (Hq & _ & Hcl & _).
  { rewrite Hp, Hc, hello_ack_buf_size. exact Hqueue. }
  rewrite E2, Hhm.
  destruct (read_len_frame
              (Server.enqueue_write (Server.hello_ack_buf id 0)
                 (Server.cancel_timer s1'))) as (Rq & Rc & Rr).
  rewrite Rq, Rc, Rr, Hq, Hcl.
  split; [|split; [|reflexivity]].
  - subst s1'. rewrite E1, E. reflexivity.
  - subst s1'. rewrite E1, E. reflexivity.
Qed.

Lemma short_body_ignored_witness :
  Server.write_queue_
    (Server.on_read_body ok [x01; x00; x00; x00; x00] awaiting_short_body)
  = []
  /\ Server.closed_
       (Server.on_read_body ok [x01; x00; x00; x00; x00] awaiting_short_body)
     = false.
Proof.
  destruct (short_body_ignored awaiting_short_body
              [x01; x00; x00; x00; x00] eq_refl eq_refl)
    as (Hq & _ & _ & Hc & _).
  - vm_compute. reflexivity.
  - split; [exact Hq|exact Hc].
Defined.

(** ** C10: the byte count of the write queue *)

Section QueueInvariant.

Import Server.

Lemma queue_inv_same (s s' : Session) :
  same_queue s s' -> queue_inv s -> queue_inv s'.
Proof.
  intros (Hq & Hp & Hc & Hw & Hcfg) (I1 & I2 & I3).
  unfold queue_inv. rewrite Hq, Hp, Hc, Hw, Hcfg. auto.
Qed.

Lemma queue_inv_closed (s : Session) :
  closed_ s = true -> (write_op s = true -> write_queue_ s <> []) ->
  queue_inv s.
Proof.
  intros Hc Hw. unfold queue_inv. rewrite Hc.
  repeat split; try exact Hw; intros; discriminate.
Qed.

Lemma queue_inv_fail_and_close (ec : error_code) (s : Session) :
  (write_op s = true -> write_queue_ s <> []) ->
  queue_inv (fail_and_close ec s).
Proof.
  intros Hw. apply queue_inv_closed; [apply fail_and_close_closes|].
  destruct (fail_and_close_frame ec s) as (_ & _ & _ & Hq & _ & _ & Hwo).
  rewrite Hq, Hwo. exact Hw.
Qed.

Lemma queue_inv_enqueue_write (buf : list byte) (s : Session) :
  size buf = 14 -> queue_inv s -> queue_inv (enqueue_write buf s).
Proof.
  intros Hsize (I1 & I2 & I3).
  destruct (enqueue_write_frame buf s) as (Hcfg & _).
  destruct (Z_lt_le_dec (max_write_queue_bytes (cfg_ s))
              (wrap64 (pending_bytes_ s + size buf))) as [Hover|Hin].
  - rewrite enqueue_write_over by exact Hover.
    apply queue_inv_fail_and_close. exact I1.
  - destruct (enqueue_write_within buf s Hin) as (Hq & Hp & Hc & _).
    unfold queue_inv. rewrite Hq, Hp, Hc, Hcfg.
    split; [|split].
    + intros _ Hnil. apply app_eq_nil in Hnil. destruct Hnil; discriminate.
    + intros Hopen. rewrite (I2 Hopen), queued_bytes_app.
      cbn [queued_bytes fold_right]. unfold wrap64.
      rewrite Z.add_0_r, Zplus_mod_idemp_l. reflexivity.
    + intros Hmax Hopen. destruct (I3 Hmax Hopen) as (Heq & Hle).
      pose proof (queued_bytes_nonneg (write_queue_ s)) as Hnn.
      assert (Hw : wrap64 (pending_bytes_ s + size buf)
                   = pending_bytes_ s + size buf)
        by (unfold wrap64; apply Z.mod_small; lia).
      rewrite Hw in *. rewrite queued_bytes_app.
      cbn [queued_bytes fold_right]. lia.
Qed.

Lemma queue_inv_handle_message (s : Session) :
  queue_inv s -> queue_inv (handle_message s).
Proof.
  intros I.
  assert (Ic : queue_inv (cancel_timer s))
    by (apply (queue_inv_same s); [repeat split|exact I]).
  destruct (Z.lt_ge_cases (size (body_ s)) (1 + 8)) as [Hs|Hl].
  - rewrite handle_message_short by exact Hs. exact Ic.
  - rewrite handle_message_long by lia.
    apply queue_inv_enqueue_write; [apply hello_ack_buf_size|exact Ic].
Qed.

Lemma queue_inv_do_write (s : Session) :
  queue_inv s -> queue_inv (do_write s).
Proof.
  intros I. unfold do_write.
  destruct (write_queue_ s) as [|front rest] eqn:Eq; [exact I|].
  destruct I as (I1 & I2 & I3). unfold queue_inv.
  cbn [write_op write_queue_ closed_ pending_bytes_ cfg_ with_write_op call
       refresh_timer].
  split; [intros _; rewrite Eq; discriminate|].
  split; assumption.
Qed.

(** The completion of a write that Asio may deliver keeps the invariant. *)
Lemma queue_inv_on_write (ec : error_code) (n : Z) (s s' : Session) :
  enabled s (EvWrite ec n) = true ->
  on_write ec n s = Some s' ->
  queue_inv s -> queue_inv s'.
Proof.
  intros Hen Hstep I.
  unfold on_write in Hstep. unfold enabled in Hen.
  destruct (write_queue_ s) as [|front rest] eqn:Eq; [discriminate|].
  destruct I as (I1 & I2 & I3).
  injection Hstep as <-.
  apply andb_prop in Hen. destruct Hen as (_ & Hen).
  apply andb_prop in Hen. destruct Hen as (Hrange & Hfull).
  apply andb_prop in Hrange. destruct Hrange as (H0 & Hn).
  apply Z.leb_le in H0, Hn.
  destruct (failed ec) eqn:Ef.
  - apply queue_inv_fail_and_close. cbn. discriminate.
  - cbn [orb] in Hfull. apply Z.eqb_eq in Hfull. subst n.
    rewrite Z.min_id.
    assert (Ipop : queue_inv
                     (with_write_queue rest
                        (with_pending_bytes
                           (wrap64 (pending_bytes_ (with_write_op false s)
                                    - size front))
                           (with_write_op false s)))).
    { unfold queue_inv.
      cbn [write_op write_queue_ closed_ pending_bytes_ cfg_ with_write_op
           with_write_queue with_pending_bytes].
      split; [discriminate|]. split.
      - intros Hopen. rewrite (I2 Hopen), Eq.
        cbn [queued_bytes fold_right]. fold (queued_bytes rest).
        unfold wrap64. rewrite Zminus_mod_idemp_l. f_equal. lia.
      - intros Hmax Hopen. destruct (I3 Hmax Hopen) as (Heq & Hle).
        rewrite Eq in Heq. cbn [queued_bytes fold_right] in Heq.
        fold (queued_bytes rest) in Heq.
        pose proof (queued_bytes_nonneg rest) as Hnn.
        pose proof (size_nonneg front) as Hf.
        unfold wrap64. rewrite Z.mod_small by lia. lia. }
    cbn [write_queue_ with_write_queue].
    destruct rest as [|next rest']; [exact Ipop|].
    apply queue_inv_do_write. exact Ipop.
Qed.

Lemma queue_inv_start (cfg : ServerConfig) :
  queue_inv (start (new_session cfg)).
Proof.
  unfold queue_inv, start. destruct (tcp_nodelay (cfg_ (new_session cfg)));
    cbn; repeat split; try discriminate; try reflexivity; lia.
Qed.

Lemma queue_inv_deliver (e : Event) (s s' : Session) :
  deliver e s = Some s' -> queue_inv s -> queue_inv s'.
Proof.
  unfold deliver. destruct (enabled s e) eqn:Hen; [|discriminate].
  destruct e as [ec|ec data|ec data|ec n]; intros Hstep I.
  - injection Hstep as <-. unfold on_timer.
    destruct (is_aborted ec); [exact I|].
    apply queue_inv_fail_and_close. apply I.
  - injection Hstep as <-. unfold on_read_len.
    cbn [lenbuf_ with_lenbuf with_read_op cfg_ body_].
    destruct (failed ec);
      [apply queue_inv_fail_and_close; apply I|].
    destruct (_ || _);
      [apply queue_inv_fail_and_close; apply I|].
    apply (queue_inv_same s); [repeat split|exact I].
  - injection Hstep as <-. unfold on_read_body.
    destruct (failed ec);
      [apply queue_inv_fail_and_close; apply I|].
    match goal with
    | |- queue_inv (read_len ?x) =>
        apply (queue_inv_same x); [repeat split|]
    end.
    apply queue_inv_handle_message.
    apply (queue_inv_same s); [repeat split|exact I].
  - apply (queue_inv_on_write ec n s s' Hen Hstep I).
Qed.

Lemma cfg_fail_and_close (ec : error_code) (s : Session) :
  cfg_ (fail_and_close ec s) = cfg_ s.
Proof. apply fail_and_close_frame. Qed.

Lemma cfg_deliver (e : Event) (s s' : Session) :
  deliver e s = Some s' -> cfg_ s' = cfg_ s.
Proof.
  unfold deliver. destruct (enabled s e); [|discriminate].
  destruct e as [ec|ec data|ec data|ec n]; intros Hstep.
  - injection Hstep as <-. unfold on_timer.
    destruct (is_aborted ec); [reflexivity|].
    apply cfg_fail_and_close.
  - injection Hstep as <-. unfold on_read_len.
    cbn [lenbuf_ with_lenbuf with_read_op cfg_ body_].
    destruct (failed ec); [rewrite cfg_fail_and_close; reflexivity|].
    destruct (_ || _); [rewrite cfg_fail_and_close; reflexivity|reflexivity].
  - injection Hstep as <-. unfold on_read_body.
    destruct (failed ec); [rewrite cfg_fail_and_close; reflexivity|].
    cbn [read_len cfg_ with_read_op call refresh_timer].
    match goal with
    | |- cfg_ (handle_message ?x) = _ =>
        destruct (handle_message_frame x) as (Hc & _); rewrite Hc
    end.
    reflexivity.
  - unfold on_write in Hstep.
    destruct (write_queue_ s) as [|front rest]; [discriminate|].
    injection Hstep as <-.
    destruct (failed ec); [rewrite cfg_fail_and_close; reflexivity|].
    cbn [write_queue_ with_write_queue].
    destruct rest; reflexivity.
Qed.

Lemma reachable_inv (cfg : ServerConfig) (s : Session) :
  reachable cfg s -> cfg_ s = cfg /\ queue_inv s.
Proof.
  induction 1 as [|s e s' Hr [IHc IHq] Hstep].
  - split; [|apply queue_inv_start].
    unfold start. destruct (tcp_nodelay (cfg_ (new_session cfg))); reflexivity.
  - split.
    + rewrite (cfg_deliver e s s' Hstep). exact IHc.
    + apply (queue_inv_deliver e s s' Hstep IHq).
Qed.

End QueueInvariant.

Lemma run_reachable (cfg : Server.ServerConfig) (es : list Server.Event) :
  forall s s' : Server.Session,
    Server.reachable cfg s -> Server.run es s = Some s' ->
    Server.reachable cfg s'.
Proof.
  induction es as [|e es IH]; intros s s' Hr Hrun; cbn [Server.run] in Hrun.
  - injection Hrun as <-. exact Hr.
  - destruct (Server.deliver e s) as [s1|] eqn:Hd; [|discriminate].
    apply (IH s1 s'); [|exact Hrun].
    apply (Server.reach_step cfg s e s1 Hr Hd).
Qed.

(** C10. In every state a session can reach in which it is not closed,
    [pending_bytes_] is the sum of the sizes of the frames in
    [write_queue_]: as a [std::size_t] (modulo 2^64) whatever the limit,
    and as the plain sum when the limit leaves room for one more 14-byte
    reply below 2^64.  [enqueue_write] adds the full size of the frame
    before it compares with the limit, and the completion of a write of the
    whole head frame pops the head and subtracts exactly its size. *)
Theorem pending_bytes_is_queue_total
  (cfg : Server.ServerConfig) (s : Server.Session) :
  Server.reachable cfg s ->
  Server.closed_ s = false ->
  Server.pending_bytes_ s
  = wrap64 (Server.queued_bytes (Server.write_queue_ s))
  /\ (0 <= Server.max_write_queue_bytes cfg <= 2 ^ 64 - 1 - 14 ->
      Server.pending_bytes_ s = Server.queued_bytes (Server.write_queue_ s))
  /\ (forall buf : list byte,
        Server.pending_bytes_ (Server.enqueue_write buf s)
        = wrap64 (Server.pending_bytes_ s + size buf))
  /\ (forall (front : list byte) (rest : list (list byte)),
        Server.write_queue_ s = front :: rest ->
        exists s' : Server.Session,
          Server.on_write ok (size front) s = Some s'
          /\ Server.write_queue_ s' = rest
          /\ Server.pending_bytes_ s'
             = wrap64 (Server.pending_bytes_ s - size front)).
Proof.
  intros Hreach Hopen.
  destruct (reachable_inv cfg s Hreach) as (Hcfg & _ & I2 & I3).
  split; [exact (I2 Hopen)|].
  split.
  { intros Hmax. rewrite <- Hcfg in Hmax. exact (proj1 (I3 Hmax Hopen)). }
  split.
  - intros buf.
    destruct (Z_lt_le_dec (Server.max_write_queue_bytes (Server.cfg_ s))
                (wrap64 (Server.pending_bytes_ s + size buf))) as [Hover|Hin].
    + rewrite enqueue_write_over by exact Hover.
      destruct (fail_and_close_frame no_buffer_space
                  (Server.with_pending_bytes
                     (wrap64 (Server.pending_bytes_ s + size buf)) s))
        as (_ & _ & _ & _ & Hp & _).
      rewrite Hp. reflexivity.
    + apply (enqueue_write_within buf s Hin).
  - intros front rest Hq. unfold Server.on_write. rewrite Hq.
    cbn [failed Server.write_queue_ Server.with_write_queue].
    rewrite Z.min_id.
    destruct rest as [|next rest'].
    + eexists. split; [reflexivity|]. split; reflexivity.
    + eexists. split; [reflexivity|]. split; reflexivity.
Qed.

Lemma hello42_acked_reachable :
  Server.reachable (Server.default_config 1) hello42_acked.
Proof.
  apply (run_reachable (Server.default_config 1)
           [Server.EvReadLen ok (Proto.write_u32be 9);
            Server.EvReadBody ok (hello_body 42)]
           awaiting_length).
  - apply Server.reach_start.
  - vm_compute. reflexivity.
Qed.

Lemma pending_bytes_is_queue_total_witness :
  Server.pending_bytes_ hello42_acked = 14.
Proof.
  destruct (pending_bytes_is_queue_total (Server.default_config 1)
              hello42_acked hello42_acked_reachable eq_refl)
    as (_ & Hexact & _).
  rewrite Hexact.
  - reflexivity.
  - vm_compute. split; discriminate.
Defined.

(** ** The client: one handler invocation per call *)

Section ClientCalls.

Import Client.

Lemma call_inv_async_connect (host port : String.string) (timeout : Z)
  (c : State) : call_inv (async_connect host port timeout c).
Proof. unfold call_inv. cbn. auto. Qed.

Lemma call_inv_async_handshake (id timeout : Z) (c : State) :
  call_inv (async_handshake id timeout c).
Proof. unfold call_inv. cbn. split; reflexivity. Qed.

Lemma call_inv_deliver_connect (e : Event) (s s' : State) :
  deliver_connect e s = Some s' -> call_inv s -> call_inv s'.
Proof.
  unfold deliver_connect, call_inv.
  destruct e as [tec|ec|ec2 ign|ec|ec2 data|ec3 data]; intros Hstep I;
    try discriminate Hstep.
  - destruct (is_some (timer_wait s)); [|discriminate].
    injection Hstep as <-. unfold connect_on_timer.
    cbn [done with_timer_wait].
    destruct (is_aborted tec); [exact I|].
    destruct (done s) eqn:Ed; cbn; rewrite ?Ed; [exact I|].
    destruct I as (-> & _). reflexivity.
  - destruct (is_some (resolve_op s)); [|discriminate].
    injection Hstep as <-. unfold on_resolve.
    cbn [done with_resolve_op].
    destruct (done s) eqn:Ed; [cbn; rewrite Ed; exact I|].
    destruct I as (Hh & _).
    destruct (failed ec); cbn; rewrite ?Ed, ?Hh; auto.
  - destruct (socket_op s) as [[[] st]|] eqn:Eo; try discriminate.
    injection Hstep as <-. unfold on_connect.
    cbn [done with_socket_op].
    destruct (done s) eqn:Ed; [cbn; rewrite Ed; exact I|].
    destruct I as (Hh & _).
    destruct (failed ec2); [|destruct (failed ign)];
      cbn; rewrite Hh; reflexivity.
Qed.

Lemma call_inv_deliver_handshake (e : Event) (s s' : State) :
  deliver_handshake e s = Some s' -> call_inv s -> call_inv s'.
Proof.
  unfold deliver_handshake, call_inv.
  destruct e as [tec|ec|ec2 ign|ec|ec2 data|ec3 data]; intros Hstep I;
    try discriminate Hstep.
  - destruct (is_some (timer_wait s)); [|discriminate].
    injection Hstep as <-. unfold handshake_on_timer.
    cbn [done with_timer_wait].
    destruct (is_aborted tec); [exact I|].
    destruct (done s) eqn:Ed; cbn; rewrite ?Ed; [exact I|].
    destruct I as (-> & _). reflexivity.
  - destruct (socket_op s) as [[[] st]|] eqn:Eo; try discriminate.
    injection Hstep as <-. unfold on_write.
    cbn [done with_socket_op].
    destruct (done s) eqn:Ed; [cbn; rewrite Ed; exact I|].
    destruct I as (Hh & _).
    destruct (failed ec); cbn; rewrite ?Ed, ?Hh; auto using orb_true_r.
  - destruct (socket_op s) as [[[] st]|] eqn:Eo; try discriminate.
    injection Hstep as <-. unfold on_read_len.
    cbn [done with_socket_op with_lenbuf lenbuf_].
    destruct (done s) eqn:Ed; [cbn; rewrite Ed; exact I|].
    destruct I as (Hh & _).
    destruct (failed ec2); [cbn; rewrite Hh; reflexivity|].
    destruct (_ || _); [cbn; rewrite Hh; reflexivity|].
    cbn. rewrite Ed, Hh. auto using orb_true_r.
  - destruct (socket_op s) as [[[] st]|] eqn:Eo; try discriminate.
    injection Hstep as <-. unfold on_read_body.
    cbn [done with_socket_op with_body body_].
    destruct (done s) eqn:Ed; [cbn; rewrite Ed; exact I|].
    destruct I as (Hh & _).
    repeat match goal with
           | |- context [if ?b then handler _ _ else _] => destruct b
           end; cbn; rewrite Hh; reflexivity.
Qed.

(** Once [*done] is set, a completion changes neither the flag nor the
    invocations of the handler, and starts nothing. *)
Lemma done_deliver_connect (e : Event) (s s' : State) :
  done s = true -> deliver_connect e s = Some s' ->
  done s' = true /\ handled s' = handled s /\ no_new_op s s'
  /\ socket_open s' = socket_open s /\ no_delay s' = no_delay s.
Proof.
  unfold deliver_connect, no_new_op.
  destruct e as [tec|ec|ec2 ign|ec|ec2 data|ec3 data]; intros Ed Hstep;
    try discriminate Hstep.
  - destruct (is_some (timer_wait s)); [|discriminate].
    injection Hstep as <-. unfold connect_on_timer.
    cbn [done with_timer_wait].
    destruct (is_aborted tec); [cbn; auto 10|].
    rewrite Ed. cbn. auto 10.
  - destruct (is_some (resolve_op s)); [|discriminate].
    injection Hstep as <-. unfold on_resolve.
    cbn [done with_resolve_op]. rewrite Ed. cbn. auto 10.
  - destruct (socket_op s) as [[[] st]|] eqn:Eo; try discriminate.
    injection Hstep as <-. unfold on_connect.
    cbn [done with_socket_op]. rewrite Ed. cbn. auto 10.
Qed.

Lemma done_deliver_handshake (e : Event) (s s' : State) :
  done s = true -> deliver_handshake e s = Some s' ->
  done s' = true /\ handled s' = handled s /\ no_new_op s s'
  /\ socket_open s' = socket_open s /\ no_delay s' = no_delay s.
Proof.
  unfold deliver_handshake, no_new_op.
  destruct e as [tec|ec|ec2 ign|ec|ec2 data|ec3 data]; intros Ed Hstep;
    try discriminate Hstep.
  - destruct (is_some (timer_wait s)); [|discriminate].
    injection Hstep as <-. unfold handshake_on_timer.
    cbn [done with_timer_wait].
    destruct (is_aborted tec); [cbn; auto 10|].
    rewrite Ed. cbn. auto 10.
  - destruct (socket_op s) as [[[] st]|] eqn:Eo; try discriminate.
    injection Hstep as <-. unfold on_write.
    cbn [done with_socket_op]. rewrite Ed. cbn. auto 10.
  - destruct (socket_op s) as [[[] st]|] eqn:Eo; try discriminate.
    injection Hstep as <-. unfold on_read_len.
    cbn [done with_socket_op with_lenbuf]. rewrite Ed. cbn. auto 10.
  - destruct (socket_op s) as [[[] st]|] eqn:Eo; try discriminate.
    injection Hstep as <-. unfold on_read_body.
    cbn [done with_socket_op with_body]. rewrite Ed. cbn. auto 10.
Qed.

End ClientCalls.

(** Runs of completions keep what single completions keep. *)
Section Runs.

Import Client.

Variable deliver : Event -> State -> option State.

Hypothesis deliver_inv :
  forall e s s', deliver e s = Some s' -> call_inv s -> call_inv s'.

Hypothesis deliver_done :
  forall e s s', done s = true -> deliver e s = Some s' ->
    done s' = true /\ handled s' = handled s /\ no_new_op s s'
    /\ socket_open s' = socket_open s /\ no_delay s' = no_delay s.

Lemma run_inv (es : list Event) :
  forall s s', run deliver es s = Some s' -> call_inv s -> call_inv s'.
Proof.
  induction es as [|e es IH]; intros s s' Hrun I; cbn [run] in Hrun.
  - injection Hrun as <-. exact I.
  - destruct (deliver e s) as [s1|] eqn:Hd; [|discriminate].
    apply (IH s1 s' Hrun). apply (deliver_inv e s s1 Hd I).
Qed.

Lemma run_done (es : list Event) :
  forall s s', done s = true -> run deliver es s = Some s' ->
    done s' = true /\ handled s' = handled s
    /\ socket_open s' = socket_open s /\ no_delay s' = no_delay s.
Proof.
  induction es as [|e es IH]; intros s s' Ed Hrun; cbn [run] in Hrun.
  - injection Hrun as <-. auto.
  - destruct (deliver e s) as [s1|] eqn:Hd; [|discriminate].
    destruct (deliver_done e s s1 Ed Hd) as (Ed1 & Hh1 & _ & Ho1 & Hn1).
    destruct (IH s1 s' Ed1 Hrun) as (Ed' & Hh' & Ho' & Hn').
    rewrite Hh', Ho', Hn'. auto.
Qed.

(** Once [*done] is set with one invocation made, the call is completed
    with that invocation. *)
Lemma run_completed (h : Handled) (s : State) :
  done s = true -> handled s = [h] -> completed_with deliver h s.
Proof.
  intros Ed Hh. split; [exact Hh|]. intros es s' Hrun.
  destruct (run_done es s s' Ed Hrun) as (_ & Hh' & _). congruence.
Qed.

(** The handler invoked with [*done] just set, in a call that had not
    completed. *)
Lemma handler_completes (h : Handled) (s s0 : State) :
  call_inv s -> done s = false ->
  done s0 = true -> handled s0 = handled s ->
  completed_with deliver h (handler h s0).
Proof.
  intros I Ed Ed0 Hh0. unfold call_inv in I. rewrite Ed in I.
  destruct I as (Hnil & _). apply run_completed.
  - exact Ed0.
  - cbn. rewrite Hh0, Hnil. reflexivity.
Qed.

(** What the invariant gives in a state of a call. *)
Lemma call_inv_once (s : State) :
  call_inv s ->
  (length (handled s) <= 1)%nat
  /\ (quiescent s = true -> length (handled s) = 1%nat)
  /\ (forall es' s', handled s <> [] -> run deliver es' s = Some s' ->
      handled s' = handled s).
Proof.
  unfold call_inv, quiescent. intros I.
  destruct (done s) eqn:Ed.
  - split; [lia|]. split; [intros _; exact I|].
    intros es' s' _ Hrun. apply (run_done es' s s' Ed Hrun).
  - destruct I as (Hh & Halive). rewrite Hh. split; [cbn; lia|]. split.
    + intros Hq. exfalso.
      destruct (is_some (resolve_op s)), (is_some (socket_op s)),
        (is_some (timer_wait s)); discriminate.
    + intros es' s' Hne. contradiction.
Qed.

End Runs.

(** ** C6: the handler of a call is invoked exactly once *)

(** What a timeout does to a call whose [*done] is not set yet. *)
Lemma connect_on_timer_fires (tec : error_code) (s : Client.State) :
  Client.done s = false -> is_aborted tec = false ->
  Client.connect_on_timer tec s
  = Client.handler (Client.connect_result timed_out)
      (Client.socket_close
         (Client.socket_cancel
            (Client.with_done true (Client.with_timer_wait None s)))).
Proof.
  intros Ed Ha. unfold Client.connect_on_timer. rewrite Ha.
  cbn [Client.done Client.with_timer_wait]. rewrite Ed. reflexivity.
Qed.

Lemma handshake_on_timer_fires (tec : error_code) (s : Client.State) :
  Client.done s = false -> is_aborted tec = false ->
  Client.handshake_on_timer tec s
  = Client.handler (Client.hello_result timed_out 0 0)
      (Client.socket_cancel
         (Client.with_done true (Client.with_timer_wait None s))).
Proof.
  intros Ed Ha. unfold Client.handshake_on_timer. rewrite Ha.
  cbn [Client.done Client.with_timer_wait]. rewrite Ed. reflexivity.
Qed.

(** What the handlers of the I/O completions do to a call whose [*done] is
    not set yet, when they are the ones that complete it. *)
Lemma on_resolve_fires (ec : error_code) (s : Client.State) :
  Client.done s = false -> failed ec = true ->
  Client.on_resolve ec s
  = Client.handler (Client.connect_result ec)
      (Client.cancel_timer
         (Client.with_done true (Client.with_resolve_op None s))).
Proof.
  intros Ed Ef. unfold Client.on_resolve.
  cbn [Client.done Client.with_resolve_op]. rewrite Ed, Ef. reflexivity.
Qed.

Lemma on_connect_fires (ec2 ign : error_code) (s : Client.State) :
  Client.done s = false ->
  exists s0 : Client.State,
    Client.on_connect ec2 ign s
    = Client.handler (Client.connect_result ec2) s0
    /\ Client.done s0 = true /\ Client.handled s0 = Client.handled s.
Proof.
  intros Ed. unfold Client.on_connect.
  cbn [Client.done Client.with_socket_op]. rewrite Ed.
  eexists. split; [reflexivity|].
  destruct (failed ec2); [|destruct (failed ign)]; split; reflexivity.
Qed.

Lemma on_write_fires (ec : error_code) (s : Client.State) :
  Client.done s = false -> failed ec = true ->
  Client.on_write ec s
  = Client.handler (Client.hello_result ec 0 0)
      (Client.cancel_timer
         (Client.with_done true (Client.with_socket_op None s))).
Proof.
  intros Ed Ef. unfold Client.on_write.
  cbn [Client.done Client.with_socket_op]. rewrite Ed, Ef. reflexivity.
Qed.

Lemma on_read_len_fires (ec2 : error_code) (data : list byte)
  (s : Client.State) :
  Client.done s = false ->
  (failed ec2 = true ->
   Client.on_read_len ec2 data s
   = Client.handler (Client.hello_result ec2 0 0)
       (Client.cancel_timer
          (Client.with_done true
             (Client.with_socket_op None
                (Client.with_lenbuf (fill (Client.lenbuf_ s) data) s)))))
  /\ (failed ec2 = false ->
      Proto.read_u32be (fill (Client.lenbuf_ s) data) < 1 + 8 + 1
      \/ Client.kMax < Proto.read_u32be (fill (Client.lenbuf_ s) data) ->
      Client.on_read_len ec2 data s
      = Client.handler (Client.hello_result invalid_argument 0 0)
          (Client.cancel_timer
             (Client.with_done true
                (Client.with_socket_op None
                   (Client.with_lenbuf (fill (Client.lenbuf_ s) data) s))))).
Proof.
  intros Ed. unfold Client.on_read_len.
  cbn [Client.done Client.with_socket_op Client.with_lenbuf Client.lenbuf_].
  rewrite Ed. split.
  - intros ->. reflexivity.
  - intros -> Hlen.
    replace ((Proto.read_u32be (fill (Client.lenbuf_ s) data) <? 1 + 8 + 1)
             || (Proto.read_u32be (fill (Client.lenbuf_ s) data)
                 >? Client.kMax)) with true; [reflexivity|].
    symmetry. apply orb_true_iff. rewrite Z.gtb_ltb.
    destruct Hlen as [Hlen|Hlen]; [left|right]; apply Z.ltb_lt; exact Hlen.
Qed.

Lemma on_read_body_fires (ec3 : error_code) (data : list byte)
  (s : Client.State) :
  Client.done s = false ->
  Client.on_read_body ec3 data s
  = Client.handler
      (if failed ec3 then Client.hello_result ec3 0 0
       else body_verdict (Client.client_id s)
              (fill (Client.body_ s) data))
      (Client.cancel_timer
         (Client.with_done true
            (Client.with_socket_op None
               (Client.with_body (fill (Client.body_ s) data) s)))).
Proof.
  intros Ed. unfold Client.on_read_body, body_verdict.
  cbn [Client.done Client.with_socket_op Client.with_body Client.body_
       Client.client_id Client.cancel_timer Client.with_done
       Client.with_timer_wait].
  rewrite Ed.
  destruct (failed ec3); [reflexivity|].
  destruct (size (fill (Client.body_ s) data) <? 1 + 8 + 1); [reflexivity|].
  destruct (negb (u8 (Proto.at_ (fill (Client.body_ s) data) 0)
                  =? Proto.MSG_HELLO_ACK)); [reflexivity|].
  destruct (negb (Proto.read_u64be (skipn 1 (fill (Client.body_ s) data))
                  =? Client.client_id s)); reflexivity.
Qed.

(** C6. In every run of completions of an [async_connect] call, and of an
    [async_handshake] call, the handler is invoked at most once; it has
    been invoked exactly once when every handler given to Asio has run;
    once it has been invoked, no later completion invokes it again.
    Whichever comes first while [*done] is not set wins.  If it is the
    timer that fires (not as a cancelled wait), the one invocation is the
    time-out, and whatever completes afterwards, a success included, is
    discarded.  If it is an I/O completion that ends the chain (a resolve
    or a write that failed, a connect, a read of the length that failed or
    gave a length out of bounds, a read of the body), the one invocation
    carries the result of that completion, and whatever completes
    afterwards, an expiry of the timer included, is discarded. *)
Theorem handler_invoked_once :
  (forall (host port : String.string) (timeout : Z) (c : Client.State)
          (es : list Client.Event) (s : Client.State),
      Client.run Client.deliver_connect es
        (Client.async_connect host port timeout c) = Some s ->
      (length (Client.handled s) <= 1)%nat
      /\ (Client.quiescent s = true -> length (Client.handled s) = 1%nat)
      /\ (forall es' s',
            Client.handled s <> [] ->
            Client.run Client.deliver_connect es' s = Some s' ->
            Client.handled s' = Client.handled s)
      /\ (forall tec es' s',
            Client.done s = false -> is_aborted tec = false ->
            Client.run Client.deliver_connect es'
              (Client.connect_on_timer tec s) = Some s' ->
            Client.handled s' = [Client.connect_result timed_out])
      /\ (forall ec s1,
            Client.done s = false -> failed ec = true ->
            Client.deliver_connect (Client.ResolveDone ec) s = Some s1 ->
            completed_with Client.deliver_connect
              (Client.connect_result ec) s1)
      /\ (forall ec2 ign s1,
            Client.done s = false ->
            Client.deliver_connect (Client.ConnectDone ec2 ign) s = Some s1 ->
            completed_with Client.deliver_connect
              (Client.connect_result ec2) s1))
  /\ (forall (id timeout : Z) (c : Client.State)
             (es : list Client.Event) (s : Client.State),
      Client.run Client.deliver_handshake es
        (Client.async_handshake id timeout c) = Some s ->
      (length (Client.handled s) <= 1)%nat
      /\ (Client.quiescent s = true -> length (Client.handled s) = 1%nat)
      /\ (forall es' s',
            Client.handled s <> [] ->
            Client.run Client.deliver_handshake es' s = Some s' ->
            Client.handled s' = Client.handled s)
      /\ (forall tec es' s',
            Client.done s = false -> is_aborted tec = false ->
            Client.run Client.deliver_handshake es'
              (Client.handshake_on_timer tec s) = Some s' ->
            Client.handled s' = [Client.hello_result timed_out 0 0])
      /\ (forall ec s1,
            Client.done s = false -> failed ec = true ->
            Client.deliver_handshake (Client.WriteDone ec) s = Some s1 ->
            completed_with Client.deliver_handshake
              (Client.hello_result ec 0 0) s1)
      /\ (forall ec2 data s1,
            Client.done s = false ->
            Client.deliver_handshake (Client.ReadLenDone ec2 data) s
            = Some s1 ->
            (failed ec2 = true ->
             completed_with Client.deliver_handshake
               (Client.hello_result ec2 0 0) s1)
            /\ (failed ec2 = false ->
                Proto.read_u32be (fill (Client.lenbuf_ s) data) < 1 + 8 + 1
                \/ Client.kMax
                   < Proto.read_u32be (fill (Client.lenbuf_ s) data) ->
                completed_with Client.deliver_handshake
                  (Client.hello_result invalid_argument 0 0) s1))
      /\ (forall ec3 data s1,
            Client.done s = false ->
            Client.deliver_handshake (Client.ReadBodyDone ec3 data) s
            = Some s1 ->
            completed_with Client.deliver_handshake
              (if failed ec3 then Client.hello_result ec3 0 0
               else body_verdict (Client.client_id s)
                      (fill (Client.body_ s) data))
              s1)).
Proof.
  split.
  - intros host port timeout c es s Hrun.
    assert (I : call_inv s).
    { apply (run_inv Client.deliver_connect call_inv_deliver_connect
               es _ s Hrun).
      apply call_inv_async_connect. }
    destruct (call_inv_once Client.deliver_connect done_deliver_connect s I)
      as (H1 & H2 & H3).
    split; [exact H1|]. split; [exact H2|]. split; [exact H3|].
    split; [|split].
    + intros tec es' s' Ed Ha Hrun'.
      rewrite connect_on_timer_fires in Hrun' by assumption.
      apply (run_done Client.deliver_connect done_deliver_connect) in Hrun';
        [|reflexivity].
      destruct Hrun' as (_ & Hh & _).
      rewrite Hh. unfold call_inv in I. rewrite Ed in I.
      destruct I as (Hnil & _). cbn. rewrite Hnil. reflexivity.
    + intros ec s1 Ed Ef Hstep. unfold Client.deliver_connect in Hstep.
      destruct (Client.is_some (Client.resolve_op s)); [|discriminate].
      injection Hstep as <-. rewrite on_resolve_fires by assumption.
      apply (handler_completes Client.deliver_connect done_deliver_connect
               _ s); auto.
    + intros ec2 ign s1 Ed Hstep. unfold Client.deliver_connect in Hstep.
      destruct (Client.socket_op s) as [[[] st]|]; try discriminate.
      injection Hstep as <-.
      destruct (on_connect_fires ec2 ign s Ed) as (s0 & -> & Ed0 & Hh0).
      apply (handler_completes Client.deliver_connect done_deliver_connect
               _ s); auto.
  - intros id timeout c es s Hrun.
    assert (I : call_inv s).
    { apply (run_inv Client.deliver_handshake call_inv_deliver_handshake
               es _ s Hrun).
      apply call_inv_async_handshake. }
    destruct (call_inv_once Client.deliver_handshake done_deliver_handshake
                s I) as (H1 & H2 & H3).
    split; [exact H1|]. split; [exact H2|]. split; [exact H3|].
    split; [|split; [|split]].
    + intros tec es' s' Ed Ha Hrun'.
      rewrite handshake_on_timer_fires in Hrun' by assumption.
      apply (run_done Client.deliver_handshake done_deliver_handshake)
        in Hrun'; [|reflexivity].
      destruct Hrun' as (_ & Hh & _).
      rewrite Hh. unfold call_inv in I. rewrite Ed in I.
      destruct I as (Hnil & _). cbn. rewrite Hnil. reflexivity.
    + intros ec s1 Ed Ef Hstep. unfold Client.deliver_handshake in Hstep.
      destruct (Client.socket_op s) as [[[] st]|]; try discriminate.
      injection Hstep as <-. rewrite on_write_fires by assumption.
      apply (handler_completes Client.deliver_handshake
               done_deliver_handshake _ s); auto.
    + intros ec2 data s1 Ed Hstep. unfold Client.deliver_handshake in Hstep.
      destruct (Client.socket_op s) as [[[] st]|]; try discriminate.
      injection Hstep as <-.
      destruct (on_read_len_fires ec2 data s Ed) as (Hfail & Hlen).
      split.
      * intros Ef. rewrite (Hfail Ef).
        apply (handler_completes Client.deliver_handshake
                 done_deliver_handshake _ s); auto.
      * intros Ef Hout. rewrite (Hlen Ef Hout).
        apply (handler_completes Client.deliver_handshake
                 done_deliver_handshake _ s); auto.
    + intros ec3 data s1 Ed Hstep. unfold Client.deliver_handshake in Hstep.
      destruct (Client.socket_op s) as [[[] st]|]; try discriminate.
      injection Hstep as <-. rewrite on_read_body_fires by assumption.
      apply (handler_completes Client.deliver_handshake
               done_deliver_handshake _ s); auto.
Qed.

Lemma handler_invoked_once_witness :
  Client.handled after_late_reply = [Client.hello_result timed_out 0 0]
  /\ length (Client.handled after_late_reply) = 1%nat
  /\ option_map Client.handled
       (Client.run Client.deliver_connect [Client.TimerDone ok] connected)
     = Some [Client.connect_result ok].
Proof.
  assert (Hrun : Client.run Client.deliver_handshake late_reply
                   (Client.async_handshake 42 5000 Client.new_client)
                 = Some after_late_reply) by (vm_compute; reflexivity).
  assert (Hq : Client.quiescent after_late_reply = true)
    by (vm_compute; reflexivity).
  destruct (proj2 handler_invoked_once 42 5000 Client.new_client
              late_reply after_late_reply Hrun) as (_ & Honce & _).
  assert (Hlen : length (Client.handled after_late_reply) = 1%nat)
    by (exact (Honce Hq)).
  split; [vm_compute; reflexivity|]. split; [exact Hlen|].
  assert (Hrun1 : Client.run Client.deliver_connect [Client.ResolveDone ok]
                    resolving
                  = Some (Client.on_resolve ok resolving))
    by (vm_compute; reflexivity).
  unfold resolving in Hrun1.
  destruct (proj1 handler_invoked_once _ _ _ _ _ _ Hrun1)
    as (_ & _ & _ & _ & _ & Hio).
  assert (Hstep : Client.deliver_connect (Client.ConnectDone ok ok)
                    (Client.on_resolve ok resolving)
                  = Some connected) by (vm_compute; reflexivity).
  destruct (Hio ok ok connected eq_refl Hstep) as (_ & Hlater).
  destruct (Client.run Client.deliver_connect [Client.TimerDone ok] connected)
    as [s'|] eqn:Hrun2.
  - cbn [option_map]. f_equal. apply (Hlater [Client.TimerDone ok] s').
    exact Hrun2.
  - vm_compute in Hrun2. discriminate Hrun2.
Defined.

(** ** C9: the time-out of async_connect *)

(** C9, as stated, fails: the lambda of the timer cancels and closes the
    socket only; a resolve in flight stays in flight, and its handler
    still runs when it completes. *)
Lemma timeout_leaves_resolve_in_flight : ~ timeout_stops_io resolving.
Proof.
  intros (_ & Hresolve & _). apply Hresolve. vm_compute. reflexivity.
Qed.

(** C9, amended. When the timer of an [async_connect] call fires (not as a
    cancelled wait) while [*done] is not set: the handler is invoked with
    [timed_out]; the operation outstanding on the socket (a connect in
    flight) is cancelled and the socket is closed; a resolve in flight is
    not cancelled.  The completion handlers of the call still run when
    their operations complete, and each returns at once: none invokes the
    handler again, starts an operation, or touches the socket. *)
Theorem connect_timeout_discards (s : Client.State) (tec : error_code) :
  Client.done s = false -> is_aborted tec = false ->
  let s' := Client.connect_on_timer tec s in
  Client.handled s' = Client.handled s ++ [Client.connect_result timed_out]
  /\ Client.done s' = true
  /\ Client.socket_open s' = false
  /\ Client.socket_op s'
     = option_map (fun o => (fst o, Client.cancelled)) (Client.socket_op s)
  /\ Client.resolve_op s' = Client.resolve_op s
  /\ (forall (e : Client.Event) (s1 : Client.State),
        Client.deliver_connect e s' = Some s1 ->
        Client.handled s1 = Client.handled s' /\ no_new_op s' s1)
  /\ (forall (es : list Client.Event) (s'' : Client.State),
        Client.run Client.deliver_connect es s' = Some s'' ->
        Client.handled s'' = Client.handled s'
        /\ Client.done s'' = true
        /\ Client.socket_open s'' = false
        /\ Client.no_delay s'' = Client.no_delay s).
Proof.
  intros Ed Ha s'.
  assert (E : s' = Client.handler (Client.connect_result timed_out)
                     (Client.socket_close
                        (Client.socket_cancel
                           (Client.with_done true
                              (Client.with_timer_wait None s)))))
    by (apply connect_on_timer_fires; assumption).
  clearbody s'.
  assert (Hd : Client.done s' = true) by (rewrite E; reflexivity).
  split; [rewrite E; reflexivity|].
  split; [exact Hd|].
  split; [rewrite E; reflexivity|].
  split.
  { rewrite E. cbn. destruct (Client.socket_op s) as [[op st]|]; reflexivity. }
  split; [rewrite E; reflexivity|].
  split.
  - intros e s1 Hstep.
    destruct (done_deliver_connect e s' s1 Hd Hstep) as (_ & Hh & Hn & _).
    split; [exact Hh|exact Hn].
  - intros es s'' Hrun.
    destruct (run_done Client.deliver_connect done_deliver_connect
                es s' s'' Hd Hrun) as (Hd' & Hh & Ho & Hn).
    rewrite Hh, Ho, Hn, E. auto.
Qed.

Lemma connect_timeout_discards_witness :
  Client.handled (Client.connect_on_timer ok resolving)
  = [Client.connect_result timed_out]
  /\ Client.handled
       (Client.on_resolve ok (Client.connect_on_timer ok resolving))
     = [Client.connect_result timed_out].
Proof.
  destruct (connect_timeout_discards resolving ok eq_refl eq_refl)
    as (Hh & _ & _ & _ & _ & Hstep & _).
  split; [exact Hh|].
  destruct (Hstep (Client.ResolveDone ok)
              (Client.on_resolve ok (Client.connect_on_timer ok resolving)))
    as (Hh1 & _).
  - vm_compute. reflexivity.
  - rewrite Hh1. exact Hh.
Defined.

(** ** C7: closing is idempotent *)

Section CloseOnce.

Import Server.

Lemma teardowns_call (cs : list Call) (s : Session) :
  teardowns (call cs s) = teardowns s ++ filter teardown cs.
Proof. unfold teardowns. cbn [calls call]. apply filter_app. Qed.

Lemma close_inv_quiet (s s' : Session) :
  quiet s s' -> close_inv s -> close_inv s'.
Proof. intros (Hc & Ht). unfold close_inv. rewrite Hc, Ht. auto. Qed.

Lemma quiet_trans (s1 s2 s3 : Session) :
  quiet s1 s2 -> quiet s2 s3 -> quiet s1 s3.
Proof. intros (H1 & H2) (H3 & H4). split; congruence. Qed.

Lemma quiet_call (cs : list Call) (s : Session) :
  filter teardown cs = [] -> quiet s (call cs s).
Proof.
  intros H. split; [reflexivity|]. rewrite teardowns_call, H. apply app_nil_r.
Qed.

(** Settles [quiet] between a session and one that made calls other than
    tear-down calls. *)
Ltac quiet_by_calls :=
  split; [reflexivity|];
  unfold teardowns; cbn; rewrite ?filter_app; cbn;
  rewrite ?app_nil_r; reflexivity.

Lemma quiet_do_write (s : Session) : quiet s (do_write s).
Proof.
  unfold do_write. destruct (write_queue_ s) as [|front rest].
  - split; reflexivity.
  - quiet_by_calls.
Qed.

Lemma quiet_read_len (s : Session) : quiet s (read_len s).
Proof. quiet_by_calls. Qed.

Lemma quiet_read_body (s : Session) : quiet s (read_body s).
Proof. quiet_by_calls. Qed.

Lemma close_inv_fail_and_close (ec : error_code) (s : Session) :
  close_inv s -> close_inv (fail_and_close ec s).
Proof.
  unfold close_inv, fail_and_close. intros I.
  destruct (closed_ s) eqn:Ec.
  - rewrite Ec. exact I.
  - unfold cancel_timer. rewrite !teardowns_call.
    change (teardowns (mark_closed ec s)) with (teardowns s).
    rewrite I. reflexivity.
Qed.

Lemma close_inv_enqueue_write (buf : list byte) (s : Session) :
  close_inv s -> close_inv (enqueue_write buf s).
Proof.
  intros I. unfold enqueue_write.
  cbn [pending_bytes_ with_pending_bytes cfg_ write_queue_].
  destruct (_ >? _).
  - apply close_inv_fail_and_close.
    apply (close_inv_quiet s); [split; reflexivity|exact I].
  - destruct (write_queue_ s) as [|front rest].
    + match goal with
      | |- close_inv (do_write ?x) =>
          apply (close_inv_quiet x); [apply quiet_do_write|]
      end.
      apply (close_inv_quiet s); [split; reflexivity|exact I].
    + apply (close_inv_quiet s); [split; reflexivity|exact I].
Qed.

Lemma close_inv_handle_message (s : Session) :
  close_inv s -> close_inv (handle_message s).
Proof.
  intros I.
  assert (Ic : close_inv (cancel_timer s))
    by (apply (close_inv_quiet s); [apply quiet_call; reflexivity|exact I]).
  destruct (Z.lt_ge_cases (size (body_ s)) (1 + 8)) as [Hs|Hl].
  - rewrite handle_message_short by exact Hs. exact Ic.
  - rewrite handle_message_long by lia.
    apply close_inv_enqueue_write. exact Ic.
Qed.

Lemma close_inv_deliver (e : Event) (s s' : Session) :
  deliver e s = Some s' -> close_inv s -> close_inv s'.
Proof.
  unfold deliver. destruct (enabled s e); [|discriminate].
  destruct e as [ec|ec data|ec data|ec n]; intros Hstep I.
  - injection Hstep as <-. unfold on_timer.
    destruct (is_aborted ec); [exact I|].
    apply close_inv_fail_and_close. exact I.
  - injection Hstep as <-. unfold on_read_len.
    cbn [lenbuf_ with_lenbuf with_read_op cfg_ body_].
    assert (I1 : close_inv
                   (with_read_op None
                      (with_lenbuf (fill (lenbuf_ s) data) s)))
      by (apply (close_inv_quiet s); [split; reflexivity|exact I]).
    destruct (failed ec); [apply close_inv_fail_and_close; exact I1|].
    destruct (_ || _); [apply close_inv_fail_and_close; exact I1|].
    match goal with
    | |- close_inv (read_body ?x) =>
        apply (close_inv_quiet x); [apply quiet_read_body|]
    end.
    apply (close_inv_quiet s); [split; reflexivity|exact I].
  - injection Hstep as <-. unfold on_read_body.
    assert (I1 : close_inv
                   (with_read_op None (with_body (fill (body_ s) data) s)))
      by (apply (close_inv_quiet s); [split; reflexivity|exact I]).
    destruct (failed ec); [apply close_inv_fail_and_close; exact I1|].
    match goal with
    | |- close_inv (read_len ?x) =>
        apply (close_inv_quiet x); [apply quiet_read_len|]
    end.
    apply close_inv_handle_message. exact I1.
  - unfold on_write in Hstep.
    destruct (write_queue_ s) as [|front rest]; [discriminate|].
    injection Hstep as <-.
    match goal with
    | |- close_inv (if _ then fail_and_close _ ?x else _) =>
        assert (I1 : close_inv x)
          by (apply (close_inv_quiet s); [split; reflexivity|exact I])
    end.
    destruct (failed ec); [apply close_inv_fail_and_close; exact I1|].
    cbn [write_queue_ with_write_queue].
    destruct rest as [|next rest']; [exact I1|].
    match goal with
    | |- close_inv (do_write ?x) =>
        apply (close_inv_quiet x); [apply quiet_do_write|exact I1]
    end.
Qed.

Lemma close_inv_reachable (cfg : ServerConfig) (s : Session) :
  reachable cfg s -> close_inv s.
Proof.
  induction 1 as [|s e s' Hr IH Hstep].
  - unfold close_inv, start.
    destruct (tcp_nodelay (cfg_ (new_session cfg))); reflexivity.
  - apply (close_inv_deliver e s s' Hstep IH).
Qed.

End CloseOnce.

(** C7. On the server, [fail_and_close] acts once: on a closed session it
    changes nothing (no call on the timer or the socket, whatever the
    error code), so calling it twice is calling it once; in every state a
    session can reach the socket has been shut down and closed exactly
    once if the session is closed and never otherwise.  On the client,
    [close()] invokes no handler; after it the connection is closed, and
    on a closed connection it changes nothing, so calling it twice is
    calling it once. *)
Theorem close_idempotent :
  (forall (ec1 ec2 : error_code) (s : Server.Session),
      Server.fail_and_close ec2 (Server.fail_and_close ec1 s)
      = Server.fail_and_close ec1 s)
  /\ (forall (ec : error_code) (s : Server.Session),
        Server.closed_ s = true -> Server.fail_and_close ec s = s)
  /\ (forall (cfg : Server.ServerConfig) (s : Server.Session),
        Server.reachable cfg s ->
        teardowns s
        = if Server.closed_ s
          then [Server.socket_shutdown_both; Server.socket_close]
          else [])
  /\ (forall c : Client.State,
        Client.close (Client.close c) = Client.close c)
  /\ (forall c : Client.State,
        client_closed (Client.close c) = true
        /\ Client.handled (Client.close c) = Client.handled c)
  /\ (forall c : Client.State,
        client_closed c = true -> Client.close c = c).
Proof.
  split; [|split; [|split; [|split; [|split]]]].
  - intros ec1 ec2 s. apply fail_and_close_closed.
    apply fail_and_close_closes.
  - intros ec s. apply fail_and_close_closed.
  - intros cfg s Hr. exact (close_inv_reachable cfg s Hr).
  - intros c. destruct c as [o nd lb b tw ro so d id h].
    destruct tw as [[]|], so as [[op []]|]; reflexivity.
  - intros c. destruct c as [o nd lb b tw ro so d id h].
    destruct tw as [[]|], so as [[op []]|]; split; reflexivity.
  - intros c. destruct c as [o nd lb b tw ro so d id h].
    unfold client_closed. cbn.
    destruct o, tw as [[]|], so as [[op []]|]; cbn;
      intros H; try discriminate H; reflexivity.
Qed.

Lemma close_idempotent_witness :
  Server.fail_and_close timed_out
    (Server.fail_and_close message_size awaiting_length)
  = Server.fail_and_close message_size awaiting_length
  /\ teardowns hello42_acked = []
  /\ Client.close (Client.close busy_client) = Client.close busy_client.
Proof.
  destruct close_idempotent as (Hs1 & Hs2 & Hs3 & Hc1 & Hc2 & Hc3).
  split; [|split].
  - apply Hs2. reflexivity.
  - apply (Hs3 (Server.default_config 1) hello42_acked
             hello42_acked_reachable).
  - apply Hc3. apply (proj1 (Hc2 busy_client)).
Defined.

(** ** More on the codec: encoding what was decoded *)

Lemma write_read_u32be (b0 b1 b2 b3 : byte) :
  Proto.write_u32be (Proto.read_u32be [b0; b1; b2; b3]) = [b0; b1; b2; b3].
Proof.
  rewrite read_u32be_arith. unfold Proto.write_u32be, Proto.at_.
  cbn [nth].
  pose proof (u8_range b0) as H0. pose proof (u8_range b1) as H1.
  pose proof (u8_range b2) as H2. pose proof (u8_range b3) as H3.
  set (X := _ + u8 b3).
  repeat f_equal.
  - transitivity (to_char (u8 b0)); [f_equal|apply to_char_u8].
    replace X with (0 * (2 ^ 24 * 256) + u8 b0 * 2 ^ 24
                    + ((u8 b1 * 256 + u8 b2) * 256 + u8 b3))
      by (subst X; lia).
    apply digit_of_be; lia.
  - transitivity (to_char (u8 b1)); [f_equal|apply to_char_u8].
    replace X with (u8 b0 * (2 ^ 16 * 256) + u8 b1 * 2 ^ 16
                    + (u8 b2 * 256 + u8 b3))
      by (subst X; lia).
    apply digit_of_be; lia.
  - transitivity (to_char (u8 b2)); [f_equal|apply to_char_u8].
    replace X with ((u8 b0 * 256 + u8 b1) * (2 ^ 8 * 256) + u8 b2 * 2 ^ 8
                    + u8 b3)
      by (subst X; lia).
    apply digit_of_be; lia.
  - transitivity (to_char (u8 b3)); [f_equal|apply to_char_u8].
    rewrite land_FF.
    replace X with (u8 b3 + ((u8 b0 * 256 + u8 b1) * 256 + u8 b2) * 256)
      by (subst X; lia).
    rewrite Z.mod_add by lia. apply Z.mod_small. exact H3.
Qed.

(** X1. Decoding four (eight) chars gives a value of 32 (64) bits, and
    encoding that value gives the same chars back: with the round trip of
    C8, the big-endian helpers are inverse bijections between the values
    and the char strings of that length. *)
Theorem encode_decode_be :
  (forall p : list byte,
      length p = 4%nat ->
      0 <= Proto.read_u32be p < 2 ^ 32
      /\ Proto.write_u32be (Proto.read_u32be p) = p)
  /\ (forall p : list byte,
        length p = 8%nat ->
        0 <= Proto.read_u64be p < 2 ^ 64
        /\ Proto.write_u64be (Proto.read_u64be p) = p).
Proof.
  split; intros p Hp.
  - split; [apply read_u32be_range|].
    do 4 (destruct p as [|? p]; [discriminate Hp|]).
    destruct p; [|discriminate Hp]. apply write_read_u32be.
  - split; [apply read_u64be_range|].
    rewrite write_read_u64be_firstn by lia.
    rewrite <- Hp. apply firstn_all.
Qed.

Lemma encode_decode_be_witness :
  Proto.write_u32be (Proto.read_u32be [x12; x34; x56; x78])
  = [x12; x34; x56; x78]
  /\ Proto.write_u64be
       (Proto.read_u64be [xff; x00; x80; x01; x7f; xfe; x10; x2a])
     = [xff; x00; x80; x01; x7f; xfe; x10; x2a].
Proof.
  split.
  - apply (proj1 encode_decode_be [x12; x34; x56; x78] eq_refl).
  - apply (proj2 encode_decode_be
             [xff; x00; x80; x01; x7f; xfe; x10; x2a] eq_refl).
Defined.

(** ** The idle timer is re-armed before every read and write *)

Section TimerArmed.

Import Server.

Lemma armed_app (chunk : list Call) :
  (forall k, armed_from k chunk = true) ->
  forall (cs : list Call) (k : nat),
    armed_from k cs = true -> armed_from k (cs ++ chunk) = true.
Proof.
  intros Hchunk. induction cs as [|c cs IH]; intros k H.
  - apply Hchunk.
  - destruct c; cbn [app armed_from] in *;
      try (apply IH; exact H);
      destruct k as [|[|[|k]]]; try discriminate H; apply IH; exact H.
Qed.

(** Where the scan stands when it accepts a call that starts an
    operation. *)
Lemma armed_before (pre : list Call) :
  forall (k : nat) (op : Call) (post : list Call),
    armed_from k (pre ++ op :: post) = true -> is_io op = true ->
    (pre = [] /\ k = 2%nat)
    \/ (pre = [timer_async_wait] /\ k = 1%nat)
    \/ exists pre' t,
         pre = pre' ++ [timer_expires_after t; timer_async_wait].
Proof.
  induction pre as [|c pre IH]; intros k op post H Hio.
  - left. split; [reflexivity|].
    destruct op; try discriminate Hio; cbn [app armed_from] in H;
      destruct k as [|[|[|k]]]; try discriminate H; reflexivity.
  - right. cbn [app] in H.
    destruct c; cbn [armed_from] in H;
      try (destruct k as [|[|[|k]]]; try discriminate H);
      apply IH in H; try exact Hio;
      destruct H as [(-> & Hk)|[(-> & Hk)|(pre' & t & ->)]];
      try discriminate Hk;
      try (left; split; reflexivity);
      try (right; exists [], seconds; reflexivity);
      try (right; eexists (_ :: pre'), t; reflexivity).
Qed.

Lemma armed_call (chunk : list Call) (s : Session) :
  (forall k, armed_from k chunk = true) ->
  armed_inv s -> armed_inv (call chunk s).
Proof. intros Hc H. unfold armed_inv. cbn [calls call]. apply armed_app; assumption. Qed.

Lemma armed_fail_and_close (ec : error_code) (s : Session) :
  armed_inv s -> armed_inv (fail_and_close ec s).
Proof.
  intros H. unfold fail_and_close. destruct (closed_ s); [exact H|].
  apply armed_call; [intros k; reflexivity|].
  apply armed_call; [intros k; reflexivity|]. exact H.
Qed.

Lemma armed_do_write (s : Session) : armed_inv s -> armed_inv (do_write s).
Proof.
  intros H. unfold do_write. destruct (write_queue_ s) as [|front rest];
    [exact H|].
  unfold armed_inv. cbn. rewrite <- app_assoc.
  apply armed_app; [intros k; reflexivity|exact H].
Qed.

Lemma armed_read_len (s : Session) : armed_inv s -> armed_inv (read_len s).
Proof.
  intros H. unfold armed_inv. cbn. rewrite <- app_assoc.
  apply armed_app; [intros k; reflexivity|exact H].
Qed.

Lemma armed_read_body (s : Session) : armed_inv s -> armed_inv (read_body s).
Proof.
  intros H. unfold armed_inv. cbn. rewrite <- app_assoc.
  apply armed_app; [intros k; reflexivity|exact H].
Qed.

Lemma armed_enqueue_write (buf : list byte) (s : Session) :
  armed_inv s -> armed_inv (enqueue_write buf s).
Proof.
  intros H. unfold enqueue_write.
  cbn [pending_bytes_ with_pending_bytes cfg_ write_queue_].
  destruct (_ >? _); [apply armed_fail_and_close; exact H|].
  destruct (write_queue_ s); [apply armed_do_write|]; exact H.
Qed.

Lemma armed_handle_message (s : Session) :
  armed_inv s -> armed_inv (handle_message s).
Proof.
  intros H.
  assert (Hc : armed_inv (cancel_timer s))
    by (apply armed_call; [intros k; reflexivity|exact H]).
  destruct (Z.lt_ge_cases (size (body_ s)) (1 + 8)) as [Hs|Hl].
  - rewrite handle_message_short by exact Hs. exact Hc.
  - rewrite handle_message_long by lia.
    apply armed_enqueue_write. exact Hc.
Qed.

Lemma armed_deliver (e : Event) (s s' : Session) :
  deliver e s = Some s' -> armed_inv s -> armed_inv s'.
Proof.
  unfold deliver. destruct (enabled s e); [|discriminate].
  destruct e as [ec|ec data|ec data|ec n]; intros Hstep H.
  - injection Hstep as <-. unfold on_timer.
    destruct (is_aborted ec); [exact H|].
    apply armed_fail_and_close. exact H.
  - injection Hstep as <-. unfold on_read_len.
    cbn [lenbuf_ with_lenbuf with_read_op cfg_ body_].
    destruct (failed ec); [apply armed_fail_and_close; exact H|].
    destruct (_ || _); [apply armed_fail_and_close; exact H|].
    apply armed_read_body. exact H.
  - injection Hstep as <-. unfold on_read_body.
    destruct (failed ec); [apply armed_fail_and_close; exact H|].
    apply armed_read_len. apply armed_handle_message. exact H.
  - unfold on_write in Hstep.
    destruct (write_queue_ s) as [|front rest]; [discriminate|].
    injection Hstep as <-.
    destruct (failed ec); [apply armed_fail_and_close; exact H|].
    cbn [write_queue_ with_write_queue].
    destruct rest as [|next rest']; [exact H|].
    apply armed_do_write. exact H.
Qed.

Lemma armed_reachable (cfg : ServerConfig) (s : Session) :
  reachable cfg s -> armed_inv s.
Proof.
  induction 1 as [|s e s' Hr IH Hstep].
  - unfold armed_inv, start.
    destruct (tcp_nodelay (cfg_ (new_session cfg))); reflexivity.
  - apply (armed_deliver e s s' Hstep IH).
Qed.

End TimerArmed.

(** X2. In every state a session can reach, each read and each write it
    has started on the socket comes right after the idle timer was
    re-armed: the two calls before it in the history are
    [timer_.expires_after] and [timer_.async_wait]. *)
Theorem timer_armed_before_io
  (cfg : Server.ServerConfig) (s : Server.Session)
  (pre post : list Server.Call) (op : Server.Call) :
  Server.reachable cfg s ->
  Server.calls s = pre ++ op :: post ->
  is_io op = true ->
  exists (pre' : list Server.Call) (seconds : Z),
    pre = pre' ++ [Server.timer_expires_after seconds;
                   Server.timer_async_wait].
Proof.
  intros Hr Hcalls Hio.
  pose proof (armed_reachable cfg s Hr) as Ha.
  unfold armed_inv in Ha. rewrite Hcalls in Ha.
  destruct (armed_before pre 0%nat op post Ha Hio)
    as [(_ & Hk)|[(_ & Hk)|H]]; try discriminate Hk.
  exact H.
Qed.

Lemma timer_armed_before_io_witness :
  exists (pre' : list Server.Call) (seconds : Z),
    [Server.set_no_delay; Server.timer_expires_after 60;
     Server.timer_async_wait; Server.timer_expires_after 60;
     Server.timer_async_wait]
    = pre' ++ [Server.timer_expires_after seconds; Server.timer_async_wait].
Proof.
  apply (timer_armed_before_io (Server.default_config 1) awaiting_length
           _ [] Server.async_read_lenbuf).
  - apply Server.reach_start.
  - vm_compute. reflexivity.
  - reflexivity.
Defined.

(** ** What a session puts on the wire *)

Section Wire.

Import Server.

Lemma hello_ack_buf_is_hello_ack (id status : Z) :
  0 <= id < 2 ^ 64 -> status = 0 \/ status = 1 ->
  is_hello_ack (hello_ack_buf id status).
Proof. intros Hid Hst. exists id, status. auto. Qed.

(** A session with the same queue, write flag and history. *)
Lemma wire_inv_same (s s' : Session) :
  write_queue_ s' = write_queue_ s -> write_op s' = write_op s ->
  calls s' = calls s -> wire_inv s -> wire_inv s'.
Proof.
  intros Hq Hw Hc. unfold wire_inv, write_head_inv.
  rewrite Hq, Hw, Hc. auto.
Qed.

(** Calls that are not writes. *)
Lemma wire_inv_call (chunk : list Call) (s : Session) :
  forallb (fun c => negb (match c with async_write _ => true | _ => false end))
    chunk = true ->
  wire_inv s -> wire_inv (call chunk s).
Proof.
  intros Hchunk (Hh & Hq & Hw). unfold wire_inv, write_head_inv.
  cbn [write_op write_queue_ calls call].
  assert (Hlast : forall acc,
             fold_left (fun acc c => match c with
                                     | async_write buf => Some buf
                                     | _ => acc
                                     end) chunk acc = acc).
  { clear Hh Hq Hw. induction chunk as [|c chunk IH]; intros acc;
      [reflexivity|].
    cbn [forallb] in Hchunk. apply andb_prop in Hchunk.
    destruct Hchunk as (Hc & Hrest).
    destruct c; try discriminate Hc; cbn [fold_left]; apply IH; exact Hrest. }
  split; [|split].
  - intros Hop. destruct (Hh Hop) as (front & rest & Hqueue & Hl).
    exists front, rest. split; [exact Hqueue|].
    unfold last_write in *. rewrite fold_left_app, Hlast. exact Hl.
  - exact Hq.
  - intros buf Hin. apply in_app_or in Hin. destruct Hin as [Hin|Hin];
      [apply Hw; exact Hin|].
    exfalso. rewrite forallb_forall in Hchunk.
    specialize (Hchunk _ Hin). discriminate Hchunk.
Qed.

Lemma wire_inv_fail_and_close (ec : error_code) (s : Session) :
  wire_inv s -> wire_inv (fail_and_close ec s).
Proof.
  intros H. unfold fail_and_close. destruct (closed_ s); [exact H|].
  apply wire_inv_call; [reflexivity|].
  apply wire_inv_call; [reflexivity|].
  apply (wire_inv_same s); [reflexivity|reflexivity|reflexivity|exact H].
Qed.

Lemma wire_inv_do_write (s : Session) : wire_inv s -> wire_inv (do_write s).
Proof.
  intros H. unfold do_write.
  destruct (write_queue_ s) as [|front rest] eqn:Eq; [exact H|].
  destruct H as (Hh & Hq & Hw). rewrite Eq in Hq.
  unfold wire_inv, write_head_inv.
  cbn [write_op write_queue_ calls with_write_op call refresh_timer].
  rewrite Eq. split; [|split].
  - intros _. exists front, rest. split; [reflexivity|].
    unfold last_write. rewrite !fold_left_app. reflexivity.
  - exact Hq.
  - intros buf Hin. apply in_app_or in Hin. destruct Hin as [Hin|Hin].
    + apply in_app_or in Hin. destruct Hin as [Hin|Hin];
        [apply Hw; exact Hin|].
      destruct Hin as [Hin|[Hin|[]]]; discriminate Hin.
    + destruct Hin as [Hin|[]]. injection Hin as <-.
      apply (Forall_inv Hq).
Qed.

Lemma wire_inv_enqueue_write (buf : list byte) (s : Session) :
  is_hello_ack buf -> wire_inv s -> wire_inv (enqueue_write buf s).
Proof.
  intros Hbuf H. unfold enqueue_write.
  cbn [pending_bytes_ with_pending_bytes cfg_ write_queue_].
  destruct (_ >? _).
  - apply wire_inv_fail_and_close.
    apply (wire_inv_same s); [reflexivity|reflexivity|reflexivity|exact H].
  - assert (Hpush : wire_inv
                      (with_write_queue (write_queue_ s ++ [buf])
                         (with_pending_bytes
                            (wrap64 (pending_bytes_ s + size buf)) s))).
    { destruct H as (Hh & Hq & Hw). unfold wire_inv, write_head_inv.
      cbn [write_op write_queue_ calls with_write_queue with_pending_bytes].
      split; [|split].
      - intros Hop. destruct (Hh Hop) as (front & rest & Hqueue & Hl).
        exists front, (rest ++ [buf]). rewrite Hqueue. auto.
      - apply Forall_app. split; [exact Hq|]. constructor; [exact Hbuf|constructor].
      - exact Hw. }
    destruct (write_queue_ s); [apply wire_inv_do_write|]; exact Hpush.
Qed.

Lemma wire_inv_handle_message (s : Session) :
  wire_inv s -> wire_inv (handle_message s).
Proof.
  intros H.
  assert (Hc : wire_inv (cancel_timer s))
    by (apply wire_inv_call; [reflexivity|exact H]).
  destruct (Z.lt_ge_cases (size (body_ s)) (1 + 8)) as [Hs|Hl].
  - rewrite handle_message_short by exact Hs. exact Hc.
  - rewrite handle_message_long by lia.
    apply wire_inv_enqueue_write; [|exact Hc].
    apply hello_ack_buf_is_hello_ack; [apply read_u64be_range|].
    destruct (_ =? _); auto.
Qed.

Lemma wire_inv_read_len (s : Session) : wire_inv s -> wire_inv (read_len s).
Proof.
  intros H. unfold read_len.
  apply (wire_inv_same (call [async_read_lenbuf] (refresh_timer s)));
    [reflexivity..|].
  apply wire_inv_call; [reflexivity|].
  apply wire_inv_call; [reflexivity|exact H].
Qed.

Lemma wire_inv_read_body (s : Session) : wire_inv s -> wire_inv (read_body s).
Proof.
  intros H. unfold read_body.
  apply (wire_inv_same (call [async_read_body (size (body_ s))]
                          (refresh_timer s)));
    [reflexivity..|].
  apply wire_inv_call; [reflexivity|].
  apply wire_inv_call; [reflexivity|exact H].
Qed.

Lemma wire_inv_deliver (e : Event) (s s' : Session) :
  deliver e s = Some s' -> wire_inv s -> wire_inv s'.
Proof.
  unfold deliver. destruct (enabled s e); [|discriminate].
  destruct e as [ec|ec data|ec data|ec n]; intros Hstep H.
  - injection Hstep as <-. unfold on_timer.
    destruct (is_aborted ec); [exact H|].
    apply wire_inv_fail_and_close. exact H.
  - injection Hstep as <-. unfold on_read_len.
    cbn [lenbuf_ with_lenbuf with_read_op cfg_ body_].
    assert (H1 : wire_inv
                   (with_read_op None
                      (with_lenbuf (fill (lenbuf_ s) data) s)))
      by (apply (wire_inv_same s); [reflexivity..|exact H]).
    destruct (failed ec); [apply wire_inv_fail_and_close; exact H1|].
    destruct (_ || _); [apply wire_inv_fail_and_close; exact H1|].
    apply wire_inv_read_body.
    match goal with
    | |- wire_inv (with_body ?b ?x) =>
        apply (wire_inv_same x); [reflexivity..|exact H1]
    end.
  - injection Hstep as <-. unfold on_read_body.
    assert (H1 : wire_inv
                   (with_read_op None (with_body (fill (body_ s) data) s)))
      by (apply (wire_inv_same s); [reflexivity..|exact H]).
    destruct (failed ec); [apply wire_inv_fail_and_close; exact H1|].
    apply wire_inv_read_len. apply wire_inv_handle_message. exact H1.
  - unfold on_write in Hstep.
    destruct (write_queue_ s) as [|front rest] eqn:Eq; [discriminate|].
    injection Hstep as <-.
    match goal with
    | |- wire_inv (if _ then fail_and_close _ ?x else _) =>
        assert (H1 : wire_inv x)
    end.
    { destruct H as (Hh & Hq & Hw). unfold wire_inv, write_head_inv.
      cbn [write_op write_queue_ calls with_write_queue with_pending_bytes
           with_write_op].
      split; [discriminate|]. split; [|exact Hw].
      rewrite Eq in Hq. apply (Forall_inv_tail Hq). }
    destruct (failed ec); [apply wire_inv_fail_and_close; exact H1|].
    cbn [write_queue_ with_write_queue].
    destruct rest as [|next rest']; [exact H1|].
    apply wire_inv_do_write. exact H1.
Qed.

Lemma wire_inv_reachable (cfg : ServerConfig) (s : Session) :
  reachable cfg s -> wire_inv s.
Proof.
  induction 1 as [|s e s' Hr IH Hstep].
  - unfold wire_inv, write_head_inv, start.
    destruct (tcp_nodelay (cfg_ (new_session cfg))); cbn;
      (split; [discriminate|]); (split; [constructor|]);
      intros buf Hin;
      repeat (destruct Hin as [Hin|Hin]; [discriminate Hin|]);
      destruct Hin.
  - apply (wire_inv_deliver e s s' Hstep IH).
Qed.

End Wire.

(** X3. In every state a session can reach: while a write is outstanding
    the queue is not empty and the frame being written is its head (the
    frame the completion pops is the frame that was written); and every
    frame in the queue, and every frame ever written, is a 14-byte
    HELLO_ACK for an id of 64 bits with status 0 or 1.  The session sends
    nothing else. *)
Theorem writes_are_queue_heads
  (cfg : Server.ServerConfig) (s : Server.Session) :
  Server.reachable cfg s ->
  (Server.write_op s = true ->
   exists front rest,
     Server.write_queue_ s = front :: rest
     /\ last_write (Server.calls s) = Some front)
  /\ (forall buf, In buf (Server.write_queue_ s) ->
        is_hello_ack buf /\ size buf = 14
        /\ firstn 5 buf = [x00; x00; x00; x0a; x81])
  /\ (forall buf, In (Server.async_write buf) (Server.calls s) ->
        is_hello_ack buf /\ size buf = 14
        /\ firstn 5 buf = [x00; x00; x00; x0a; x81]).
Proof.
  intros Hr. destruct (wire_inv_reachable cfg s Hr) as (Hh & Hq & Hw).
  assert (Hshape : forall buf, is_hello_ack buf ->
            is_hello_ack buf /\ size buf = 14
            /\ firstn 5 buf = [x00; x00; x00; x0a; x81]).
  { intros buf Hb. split; [exact Hb|].
    destruct Hb as (id & status & _ & _ & ->).
    split; reflexivity. }
  split; [exact Hh|]. split.
  - intros buf Hin. apply Hshape. rewrite Forall_forall in Hq.
    apply Hq. exact Hin.
  - intros buf Hin. apply Hshape. apply Hw. exact Hin.
Qed.

Lemma writes_are_queue_heads_witness :
  exists front rest,
    Server.write_queue_ hello42_acked = front :: rest
    /\ last_write (Server.calls hello42_acked) = Some front.
Proof.
  apply (proj1 (writes_are_queue_heads (Server.default_config 1)
                  hello42_acked hello42_acked_reachable)).
  vm_compute. reflexivity.
Defined.

(** ** The reads of a session *)

Section Reads.

Import Server.

Lemma read_inv_fail_and_close (ec : error_code) (s : Session) :
  length (lenbuf_ s) = 4%nat ->
  (size (body_ s) = 0 \/ 0 < size (body_ s) <= max_frame (cfg_ s)) ->
  (read_op s = Some RdBody -> 0 < size (body_ s) <= max_frame (cfg_ s)) ->
  read_inv (fail_and_close ec s).
Proof.
  intros H1 H2 H3.
  destruct (fail_and_close_frame ec s) as (Hc & Hl & Hb & _ & _ & Hr & _).
  unfold read_inv. rewrite Hc, Hl, Hb, Hr, fail_and_close_closes.
  repeat split; try assumption; try discriminate; apply H3; assumption.
Qed.

Lemma read_inv_deliver (e : Event) (s s' : Session) :
  deliver e s = Some s' -> read_inv s -> read_inv s'.
Proof.
  unfold deliver. destruct (enabled s e) eqn:Hen; [|discriminate].
  destruct e as [ec|ec data|ec data|ec n]; intros Hstep (I1 & I2 & I3 & I4).
  - injection Hstep as <-. unfold on_timer.
    destruct (is_aborted ec); [unfold read_inv; auto|].
    apply read_inv_fail_and_close; assumption.
  - injection Hstep as <-. unfold enabled in Hen.
    destruct (read_op s) as [[]|] eqn:Er; try discriminate Hen.
    apply andb_prop in Hen. destruct Hen as (Hle & _).
    apply Z.leb_le in Hle.
    pose proof (fill_size (lenbuf_ s) data Hle) as Hfill.
    unfold size in Hfill. apply Nat2Z.inj in Hfill.
    unfold on_read_len.
    cbn [lenbuf_ with_lenbuf with_read_op cfg_ body_].
    destruct (failed ec);
      [apply read_inv_fail_and_close; cbn; try discriminate; congruence|].
    destruct (Z.eqb_spec (Proto.read_u32be (fill (lenbuf_ s) data)) 0)
      as [|Hnz];
      [apply read_inv_fail_and_close; cbn; try discriminate; congruence|].
    rewrite Z.gtb_ltb.
    destruct (Z.ltb_spec (max_frame (cfg_ s))
                (Proto.read_u32be (fill (lenbuf_ s) data))) as [|Hmax];
      [apply read_inv_fail_and_close; cbn; try discriminate; congruence|].
    cbn [orb].
    pose proof (read_u32be_range (fill (lenbuf_ s) data)) as Hrange.
    unfold read_inv. cbn. rewrite resize_size by lia.
    repeat split; try congruence; try lia; try discriminate.
  - injection Hstep as <-. unfold enabled in Hen.
    destruct (read_op s) as [[]|] eqn:Er; try discriminate Hen.
    apply andb_prop in Hen. destruct Hen as (Hle & _).
    apply Z.leb_le in Hle.
    pose proof (fill_size (body_ s) data Hle) as Hfill.
    specialize (I3 eq_refl).
    unfold on_read_body.
    destruct (failed ec).
    + apply read_inv_fail_and_close; cbn; try discriminate;
        rewrite ?Hfill; auto.
    + match goal with
      | |- read_inv (read_len (handle_message ?x)) =>
          destruct (handle_message_frame x) as (Hc & Hl & Hb & _)
      end.
      unfold read_inv.
      cbn [read_len lenbuf_ body_ cfg_ read_op closed_ with_read_op call
           refresh_timer].
      rewrite Hc, Hl, Hb. cbn. rewrite Hfill.
      repeat split; try assumption; try discriminate; try lia.
  - unfold on_write in Hstep.
    destruct (write_queue_ s) as [|front rest]; [discriminate|].
    injection Hstep as <-.
    destruct (failed ec);
      [apply read_inv_fail_and_close; cbn; assumption|].
    cbn [write_queue_ with_write_queue].
    destruct rest as [|next rest']; unfold read_inv; cbn; auto.
Qed.

Lemma read_inv_reachable (cfg : ServerConfig) (s : Session) :
  reachable cfg s -> read_inv s.
Proof.
  induction 1 as [|s e s' Hr IH Hstep].
  - unfold read_inv, start.
    destruct (tcp_nodelay (cfg_ (new_session cfg))); cbn;
      repeat split; auto; discriminate.
  - apply (read_inv_deliver e s s' Hstep IH).
Qed.

End Reads.

(** X4. In every state a session can reach in which it is not closed, a
    read is outstanding on the socket: the session is waiting either for
    a length prefix, into the four chars of [lenbuf_], or for a body. *)
Theorem open_session_awaits_read
  (cfg : Server.ServerConfig) (s : Server.Session) :
  Server.reachable cfg s ->
  Server.closed_ s = false ->
  length (Server.lenbuf_ s) = 4%nat
  /\ (Server.read_op s = Some Server.RdLen
      \/ Server.read_op s = Some Server.RdBody).
Proof.
  intros Hr Hopen. destruct (read_inv_reachable cfg s Hr) as (I1 & _ & _ & I4).
  split; [exact I1|]. specialize (I4 Hopen).
  destruct (Server.read_op s) as [[]|]; auto. contradiction.
Qed.

Lemma open_session_awaits_read_witness :
  Server.read_op hello42_acked = Some Server.RdLen
  \/ Server.read_op hello42_acked = Some Server.RdBody.
Proof.
  apply (proj2 (open_session_awaits_read (Server.default_config 1)
                  hello42_acked hello42_acked_reachable eq_refl)).
Defined.

(** X5. In every state a session can reach, [body_] is empty or holds
    between 1 and [max_frame] chars, and while a body read is outstanding
    it is not empty: no length prefix makes the session allocate more than
    [max_frame] chars. *)
Theorem body_within_max_frame
  (cfg : Server.ServerConfig) (s : Server.Session) :
  Server.reachable cfg s ->
  (size (Server.body_ s) = 0
   \/ 0 < size (Server.body_ s) <= Server.max_frame cfg)
  /\ (Server.read_op s = Some Server.RdBody ->
      0 < size (Server.body_ s) <= Server.max_frame cfg).
Proof.
  intros Hr. destruct (read_inv_reachable cfg s Hr) as (_ & I2 & I3 & _).
  destruct (reachable_inv cfg s Hr) as (Hcfg & _).
  rewrite Hcfg in I2, I3. split; assumption.
Qed.

Lemma body_within_max_frame_witness :
  size (Server.body_ awaiting_short_body) = 0
  \/ 0 < size (Server.body_ awaiting_short_body) <= 1048576.
Proof.
  apply (proj1 (body_within_max_frame (Server.default_config 1)
                  awaiting_short_body
                  (Server.reach_step (Server.default_config 1)
                     awaiting_length
                     (Server.EvReadLen ok [x00; x00; x00; x05])
                     awaiting_short_body
                     (Server.reach_start (Server.default_config 1))
                     eq_refl))).
Defined.

(** ** Errors, the byte bound and the overflow during dispatch *)

(** X6. A completion that carries an error closes an open session: a read
    or a write that failed closes it with that error, a wait on the timer
    that was not cancelled closes it with [timed_out].  The session
    cancels the timer, shuts the socket down and closes it, and does
    nothing else: no read or write is started and no frame is queued.  A
    cancelled wait changes nothing. *)
Theorem error_closes_session
  (e : Server.Event) (ec : error_code) (s s' : Server.Session) :
  Server.closed_ s = false ->
  Server.deliver e s = Some s' ->
  event_error e = Some ec ->
  Server.closed_ s' = true
  /\ Server.fail_ec s' = Some ec
  /\ Server.calls s'
     = Server.calls s
       ++ [Server.timer_cancel; Server.socket_shutdown_both;
           Server.socket_close]
  /\ (Server.write_queue_ s' = Server.write_queue_ s
      \/ exists front, Server.write_queue_ s = front :: Server.write_queue_ s')
  /\ Server.deliver (Server.EvTimer operation_aborted) s = Some s.
Proof.
  intros Hopen Hstep Herr.
  assert (Hclose : forall x : Server.Session,
             Server.closed_ x = false -> Server.calls x = Server.calls s ->
             Server.closed_ (Server.fail_and_close ec x) = true
             /\ Server.fail_ec (Server.fail_and_close ec x) = Some ec
             /\ Server.calls (Server.fail_and_close ec x)
                = Server.calls s
                  ++ [Server.timer_cancel; Server.socket_shutdown_both;
                      Server.socket_close]).
  { intros x Hx Hcalls.
    destruct (fail_and_close_open ec x Hx) as (H1 & H2 & H3).
    rewrite H3, Hcalls. auto. }
  unfold Server.deliver in Hstep.
  destruct (Server.enabled s e); [|discriminate].
  destruct e as [tec|rec data|rec data|wec n]; cbn [event_error] in Herr.
  - injection Hstep as <-. unfold Server.on_timer.
    destruct (is_aborted tec); [discriminate|]. injection Herr as <-.
    destruct (Hclose s Hopen eq_refl) as (H1 & H2 & H3).
    destruct (fail_and_close_frame timed_out s) as (_ & _ & _ & Hq & _).
    auto 6.
  - injection Hstep as <-. unfold Server.on_read_len.
    destruct (failed rec); [|discriminate]. injection Herr as <-.
    match goal with
    | |- context [Server.fail_and_close ?c ?x] =>
        destruct (Hclose x Hopen eq_refl) as (H1 & H2 & H3);
        destruct (fail_and_close_frame c x) as (_ & _ & _ & Hq & _)
    end.
    auto 6.
  - injection Hstep as <-. unfold Server.on_read_body.
    destruct (failed rec); [|discriminate]. injection Herr as <-.
    match goal with
    | |- context [Server.fail_and_close ?c ?x] =>
        destruct (Hclose x Hopen eq_refl) as (H1 & H2 & H3);
        destruct (fail_and_close_frame c x) as (_ & _ & _ & Hq & _)
    end.
    auto 6.
  - unfold Server.on_write in Hstep.
    destruct (Server.write_queue_ s) as [|front rest] eqn:Eq; [discriminate|].
    injection Hstep as <-.
    destruct (failed wec); [|discriminate]. injection Herr as <-.
    match goal with
    | |- context [Server.fail_and_close ?c ?x] =>
        destruct (Hclose x Hopen eq_refl) as (H1 & H2 & H3);
        destruct (fail_and_close_frame c x) as (_ & _ & _ & Hq & _)
    end.
    split; [exact H1|]. split; [exact H2|]. split; [exact H3|].
    split; [|reflexivity].
    right. exists front. rewrite Hq. reflexivity.
Qed.

Lemma error_closes_session_witness :
  Server.closed_ (Server.on_timer ok awaiting_length) = true
  /\ Server.fail_ec (Server.on_timer ok awaiting_length) = Some timed_out.
Proof.
  destruct (error_closes_session (Server.EvTimer ok) timed_out
              awaiting_length (Server.on_timer ok awaiting_length)
              eq_refl eq_refl eq_refl) as (H1 & H2 & _).
  split; [exact H1|exact H2].
Defined.

(** X7. In every state a session can reach in which it is not closed, the
    frames queued for writing hold at most [max_write_queue_bytes] chars
    in all (for a limit that leaves room for one more reply below 2^64),
    so at most that many chars of replies are held for a peer that does
    not read. *)
Theorem queued_bytes_within_limit
  (cfg : Server.ServerConfig) (s : Server.Session) :
  Server.reachable cfg s ->
  Server.closed_ s = false ->
  0 <= Server.max_write_queue_bytes cfg <= 2 ^ 64 - 1 - 14 ->
  Server.queued_bytes (Server.write_queue_ s)
    <= Server.max_write_queue_bytes cfg
  /\ 14 * Z.of_nat (length (Server.write_queue_ s))
     <= Server.max_write_queue_bytes cfg.
Proof.
  intros Hr Hopen Hmax.
  destruct (reachable_inv cfg s Hr) as (Hcfg & _ & _ & I3).
  rewrite Hcfg in I3. destruct (I3 Hmax Hopen) as (Heq & Hle).
  destruct (wire_inv_reachable cfg s Hr) as (_ & Hq & _).
  assert (Hlen : Server.queued_bytes (Server.write_queue_ s)
                 = 14 * Z.of_nat (length (Server.write_queue_ s))).
  { clear Heq Hle I3. induction Hq as [|buf q Hb Hq IH]; [reflexivity|].
    cbn [Server.queued_bytes fold_right length].
    fold (Server.queued_bytes q). rewrite IH.
    destruct Hb as (id & status & _ & _ & ->).
    rewrite hello_ack_buf_size. lia. }
  rewrite <- Hlen. lia.
Qed.

Lemma queued_bytes_within_limit_witness :
  Server.queued_bytes (Server.write_queue_ hello42_acked) <= 8388608.
Proof.
  apply (proj1 (queued_bytes_within_limit (Server.default_config 1)
                  hello42_acked hello42_acked_reachable eq_refl
                  ltac:(vm_compute; split; discriminate))).
Defined.

(** X8. When the reply to a received body does not fit in the write queue,
    the completion of the body read closes the session with
    [no_buffer_space] and queues nothing; the same completion then still
    re-arms the idle timer and starts the read of the next length prefix,
    on the socket it has just closed. *)
Theorem overflow_closes_then_reads (s : Server.Session) (data : list byte) :
  Server.closed_ s = false ->
  length data = length (Server.body_ s) ->
  1 + 8 <= size data ->
  Server.max_write_queue_bytes (Server.cfg_ s)
    < wrap64 (Server.pending_bytes_ s + 14) ->
  let s' := Server.on_read_body ok data s in
  Server.closed_ s' = true
  /\ Server.fail_ec s' = Some no_buffer_space
  /\ Server.write_queue_ s' = Server.write_queue_ s
  /\ Server.read_op s' = Some Server.RdLen
  /\ Server.calls s'
     = Server.calls s
       ++ [Server.timer_cancel;
           Server.timer_cancel; Server.socket_shutdown_both;
           Server.socket_close;
           Server.timer_expires_after (Server.idle_timeout (Server.cfg_ s));
           Server.timer_async_wait; Server.async_read_lenbuf].
Proof.
  intros Hopen Hdata Hsize Hover s'.
  set (s1 := Server.with_read_op None (Server.with_body data s)).
  set (reply := Server.hello_ack_buf
                  (Proto.read_u64be (skipn 1 data))
                  (if u8 (Proto.at_ data 0) =? Proto.MSG_HELLO then 0 else 1)).
  set (s2 := Server.with_pending_bytes
               (wrap64 (Server.pending_bytes_ s + 14))
               (Server.cancel_timer s1)).
  assert (E : s' = Server.read_len
                     (Server.fail_and_close no_buffer_space s2)).
  { subst s'. rewrite on_read_body_ok by exact Hdata. fold s1.
    rewrite handle_message_long by exact Hsize.
    change (Server.body_ s1) with data. fold reply.
    rewrite enqueue_write_over.
    - rewrite (hello_ack_buf_size _ _ : size reply = 14). reflexivity.
    - rewrite (hello_ack_buf_size _ _ : size reply = 14). exact Hover. }
  clearbody s'.
  destruct (fail_and_close_open no_buffer_space s2 Hopen) as (Hc & Hf & Hcalls).
  destruct (fail_and_close_frame no_buffer_space s2)
    as (Hcfg & _ & _ & Hq & _).
  rewrite E. unfold Server.read_len, Server.refresh_timer.
  cbn [Server.closed_ Server.fail_ec Server.write_queue_ Server.read_op
       Server.calls Server.with_read_op Server.call Server.cfg_].
  rewrite Hc, Hf, Hq, Hcalls, Hcfg.
  repeat split. cbn. rewrite <- !app_assoc. reflexivity.
Qed.

Lemma overflow_closes_then_reads_witness :
  Server.closed_
    (Server.on_read_body ok (hello_body 3)
       (Server.on_read_len ok (Proto.write_u32be 9)
          (enqueue_all [Server.hello_ack_buf 1 0; Server.hello_ack_buf 2 0]
             small_queue_session))) = true.
Proof.
  apply (overflow_closes_then_reads
           (Server.on_read_len ok (Proto.write_u32be 9)
              (enqueue_all [Server.hello_ack_buf 1 0; Server.hello_ack_buf 2 0]
                 small_queue_session))
           (hello_body 3)).
  - vm_compute. reflexivity.
  - vm_compute. reflexivity.
  - vm_compute. discriminate.
  - vm_compute. reflexivity.
Defined.

(** ** The results a client call reports *)

Section ClientResultsFacts.

Import Client.

(** A property that every completion keeps is kept by every run. *)
Lemma run_keeps (P : State -> Prop)
  (deliver : Event -> State -> option State) :
  (forall e s s', deliver e s = Some s' -> P s -> P s') ->
  forall es s s', run deliver es s = Some s' -> P s -> P s'.
Proof.
  intros Hstep. induction es as [|e es IH]; intros s s' Hrun HP;
    cbn [run] in Hrun.
  - injection Hrun as <-. exact HP.
  - destruct (deliver e s) as [s1|] eqn:Hd; [|discriminate].
    apply (IH s1 s' Hrun). apply (Hstep e s s1 Hd HP).
Qed.

Lemma cancel_timer_settles (s : State) :
  timer_wait (cancel_timer s) <> Some in_flight.
Proof. cbn. destruct (timer_wait s); discriminate. Qed.

(** Reporting a sound result, with the timer cancelled and [*done] set,
    keeps the invariant of the handshake. *)
Lemma handshake_inv_report (id : Z) (h : Handled) (s : State) :
  sound_result id h -> client_id s = id ->
  Forall (sound_result id) (handled s) ->
  handshake_inv id (handler h (cancel_timer (with_done true s))).
Proof.
  intros Hh Hid Hall. unfold handshake_inv.
  split; [exact Hid|]. split.
  - cbn [handled handler cancel_timer with_timer_wait with_done].
    apply Forall_app. split; [exact Hall|]. constructor; [exact Hh|constructor].
  - intros _. apply (cancel_timer_settles (with_done true s)).
Qed.

Lemma handshake_inv_deliver (id : Z) (e : Event) (s s' : State) :
  deliver_handshake e s = Some s' -> handshake_inv id s -> handshake_inv id s'.
Proof.
  unfold deliver_handshake.
  destruct e as [tec|ec|ec2 ign|ec|ec2 data|ec3 data];
    intros Hstep (Hid & Hall & Ht); try discriminate Hstep.
  - destruct (is_some (timer_wait s)); [|discriminate].
    injection Hstep as <-. unfold handshake_on_timer.
    cbn [done with_timer_wait].
    destruct (is_aborted tec); [|destruct (done s)];
      unfold handshake_inv; cbn;
      repeat split; try assumption; try discriminate.
    apply Forall_app. split; [exact Hall|].
    constructor; [cbn; auto|constructor].
  - destruct (socket_op s) as [[[] st]|] eqn:Eo; try discriminate.
    injection Hstep as <-. unfold on_write.
    cbn [done with_socket_op].
    destruct (done s) eqn:Ed;
      [unfold handshake_inv; cbn; rewrite Ed; auto|].
    destruct (failed ec) eqn:Ef.
    + apply (handshake_inv_report id _ (with_socket_op None s));
        [cbn; rewrite Ef; auto|exact Hid|exact Hall].
    + unfold handshake_inv. cbn. rewrite Ed.
      repeat split; try assumption; discriminate.
  - destruct (socket_op s) as [[[] st]|] eqn:Eo; try discriminate.
    injection Hstep as <-. unfold on_read_len.
    cbn [done with_socket_op with_lenbuf lenbuf_].
    destruct (done s) eqn:Ed;
      [unfold handshake_inv; cbn; rewrite Ed; auto|].
    destruct (failed ec2) eqn:Ef.
    + match goal with
      | |- handshake_inv id (handler _ (cancel_timer (with_done true ?x))) =>
          apply (handshake_inv_report id _ x);
            [cbn; rewrite Ef; auto|exact Hid|exact Hall]
      end.
    + destruct (_ || _).
      * match goal with
        | |- handshake_inv id (handler _ (cancel_timer (with_done true ?x))) =>
            apply (handshake_inv_report id _ x);
              [cbn; auto|exact Hid|exact Hall]
        end.
      * unfold handshake_inv. cbn. rewrite Ed.
        repeat split; try assumption; discriminate.
  - destruct (socket_op s) as [[[] st]|] eqn:Eo; try discriminate.
    injection Hstep as <-. unfold on_read_body.
    cbn [done with_socket_op with_body body_].
    destruct (done s) eqn:Ed;
      [unfold handshake_inv; cbn; rewrite Ed; auto|].
    cbn [client_id cancel_timer with_timer_wait with_done with_socket_op
         with_body body_].
    destruct (failed ec3) eqn:Ef;
      [|destruct (_ <? _);
        [|destruct (negb (_ =? Proto.MSG_HELLO_ACK));
          [|destruct (Z.eqb_spec
                        (Proto.read_u64be (skipn 1 (fill (body_ s) data)))
                        (client_id s)) as [Heq|Hne]; cbn [negb]]]];
      match goal with
      | |- handshake_inv id (handler ?h ?x) =>
          change x with
            (cancel_timer
               (with_done true
                  (with_socket_op None
                     (with_body (fill (body_ s) data) s))));
          apply handshake_inv_report; [|exact Hid|exact Hall]
      end;
      cbn [sound_result failed]; rewrite ?Ef; auto.
    split; [congruence|apply u8_range].
Qed.

Lemma handshake_inv_start (id timeout : Z) (c : State) :
  handshake_inv id (async_handshake id timeout c).
Proof.
  unfold handshake_inv. cbn. repeat split; [constructor|discriminate].
Qed.





End ClientResultsFacts.

(** X9. In every run of completions of an [async_handshake] call for an
    id, whatever the peer sends: the handler is given a success only with
    the id that was presented and a status of one byte; every failure it
    is given carries the id 0 and the status 0; and once the call has
    completed no wait on the timer is left in flight. *)
Theorem handshake_reports_presented_id
  (id timeout : Z) (c : Client.State)
  (es : list Client.Event) (s : Client.State) :
  Client.run Client.deliver_handshake es
    (Client.async_handshake id timeout c) = Some s ->
  (forall (ec : error_code) (rid status : Z),
      In (Client.hello_result ec rid status) (Client.handled s) ->
      (failed ec = false -> rid = id /\ 0 <= status < 256)
      /\ (failed ec = true -> rid = 0 /\ status = 0))
  /\ (Client.done s = true -> Client.timer_wait s <> Some Client.in_flight).
Proof.
  intros Hrun.
  destruct (run_keeps (handshake_inv id) Client.deliver_handshake
              (handshake_inv_deliver id) es _ s Hrun
              (handshake_inv_start id timeout c)) as (_ & Hall & Ht).
  split; [|exact Ht].
  intros ec rid status Hin. rewrite Forall_forall in Hall.
  specialize (Hall _ Hin). cbn [sound_result] in Hall.
  destruct (failed ec); split; intros H; try discriminate H; exact Hall.
Qed.

Lemma handshake_reports_presented_id_witness :
  Client.handled after_wrong_echo = [Client.hello_result fault 0 0]
  /\ Client.timer_wait after_wrong_echo <> Some Client.in_flight.
Proof.
  assert (Hrun : Client.run Client.deliver_handshake wrong_echo
                   (Client.async_handshake 42 5000 Client.new_client)
                 = Some after_wrong_echo) by (vm_compute; reflexivity).
  destruct (handshake_reports_presented_id 42 5000 Client.new_client
              wrong_echo after_wrong_echo Hrun) as (_ & Ht).
  split; [vm_compute; reflexivity|].
  apply Ht. vm_compute. reflexivity.
Defined.

(** X10. When the timer of an [async_handshake] call fires (not as a
    cancelled wait) while [*done] is not set: the handler is invoked with
    [timed_out], the id 0 and the status 0; the operation outstanding on
    the socket is cancelled, and the socket is left open (the time-out of
    [async_connect] closes it, this one does not).  Completions that land
    afterwards invoke no handler and start nothing. *)
Theorem handshake_timeout_discards (s : Client.State) (tec : error_code) :
  Client.done s = false -> is_aborted tec = false ->
  let s' := Client.handshake_on_timer tec s in
  Client.handled s'
  = Client.handled s ++ [Client.hello_result timed_out 0 0]
  /\ Client.done s' = true
  /\ Client.socket_open s' = Client.socket_open s
  /\ Client.socket_op s'
     = option_map (fun o => (fst o, Client.cancelled)) (Client.socket_op s)
  /\ Client.timer_wait s' = None
  /\ (forall (e : Client.Event) (s1 : Client.State),
        Client.deliver_handshake e s' = Some s1 ->
        Client.handled s1 = Client.handled s' /\ no_new_op s' s1)
  /\ (forall (es : list Client.Event) (s'' : Client.State),
        Client.run Client.deliver_handshake es s' = Some s'' ->
        Client.handled s'' = Client.handled s'
        /\ Client.done s'' = true
        /\ Client.socket_open s'' = Client.socket_open s).
Proof.
  intros Ed Ha s'.
  assert (E : s' = Client.handler (Client.hello_result timed_out 0 0)
                     (Client.socket_cancel
                        (Client.with_done true
                           (Client.with_timer_wait None s))))
    by (apply handshake_on_timer_fires; assumption).
  clearbody s'.
  assert (Hd : Client.done s' = true) by (rewrite E; reflexivity).
  split; [rewrite E; reflexivity|].
  split; [exact Hd|].
  split; [rewrite E; reflexivity|].
  split.
  { rewrite E. cbn. destruct (Client.socket_op s) as [[op st]|]; reflexivity. }
  split; [rewrite E; reflexivity|].
  split.
  - intros e s1 Hstep.
    destruct (done_deliver_handshake e s' s1 Hd Hstep) as (_ & Hh & Hn & _).
    split; [exact Hh|exact Hn].
  - intros es s'' Hrun.
    destruct (run_done Client.deliver_handshake done_deliver_handshake
                es s' s'' Hd Hrun) as (Hd' & Hh & Ho & _).
    rewrite Hh, Ho, E. auto.
Qed.

Lemma handshake_timeout_discards_witness :
  Client.handled
    (Client.handshake_on_timer ok
       (Client.on_write ok (Client.async_handshake 42 5000 Client.new_client)))
  = [Client.hello_result timed_out 0 0].
Proof.
  apply (proj1 (handshake_timeout_discards
                  (Client.on_write ok
                     (Client.async_handshake 42 5000 Client.new_client))
                  ok eq_refl eq_refl)).
Defined.



(** ** The reply the client accepts *)

Section ClientReply.

Import Client.

Lemma client_on_write_ok (s : State) :
  done s = false ->
  on_write ok s
  = with_socket_op (Some (op_read_lenbuf, in_flight)) (with_socket_op None s).
Proof.
  intros Ed. unfold on_write. cbn [done with_socket_op]. rewrite Ed.
  reflexivity.
Qed.

Lemma client_on_read_len_rejects (s : State) (data : list byte) :
  done s = false -> length (lenbuf_ s) = 4%nat -> length data = 4%nat ->
  Proto.read_u32be data < 1 + 8 + 1 \/ kMax < Proto.read_u32be data ->
  on_read_len ok data s
  = handler (hello_result invalid_argument 0 0)
      (cancel_timer
         (with_done true (with_socket_op None (with_lenbuf data s)))).
Proof.
  intros Ed Hbuf Hdata HL. unfold on_read_len.
  rewrite fill_full by congruence.
  cbn [done with_socket_op with_lenbuf lenbuf_ failed]. rewrite Ed.
  rewrite Z.gtb_ltb.
  destruct (Z.ltb_spec (Proto.read_u32be data) (1 + 8 + 1));
    [reflexivity|].
  destruct (Z.ltb_spec kMax (Proto.read_u32be data)); [reflexivity|lia].
Qed.

Lemma client_on_read_len_accepts (s : State) (data : list byte) :
  done s = false -> length (lenbuf_ s) = 4%nat -> length data = 4%nat ->
  1 + 8 + 1 <= Proto.read_u32be data <= kMax ->
  on_read_len ok data s
  = with_socket_op
      (Some (op_read_body (size (resize (body_ s) (Proto.read_u32be data))),
             in_flight))
      (with_body (resize (body_ s) (Proto.read_u32be data))
         (with_socket_op None (with_lenbuf data s))).
Proof.
  intros Ed Hbuf Hdata HL. unfold on_read_len.
  rewrite fill_full by congruence.
  cbn [done with_socket_op with_lenbuf lenbuf_ failed body_]. rewrite Ed.
  rewrite Z.gtb_ltb.
  destruct (Z.ltb_spec (Proto.read_u32be data) (1 + 8 + 1)); [lia|].
  destruct (Z.ltb_spec kMax (Proto.read_u32be data)); [lia|reflexivity].
Qed.

Lemma client_on_read_body_ok (s : State) (data : list byte) :
  done s = false -> length data = length (body_ s) ->
  on_read_body ok data s
  = handler (body_verdict (client_id s) data)
      (cancel_timer
         (with_done true (with_socket_op None (with_body data s)))).
Proof.
  intros Ed Hdata. unfold on_read_body, body_verdict.
  rewrite fill_full by exact Hdata.
  cbn [done with_socket_op with_body body_ failed client_id cancel_timer
       with_timer_wait with_done].
  rewrite Ed.
  destruct (_ <? _); [reflexivity|].
  destruct (negb (_ =? Proto.MSG_HELLO_ACK)); [reflexivity|].
  destruct (negb (_ =? client_id s)); reflexivity.
Qed.

End ClientReply.

(** X12. The reply to a handshake, read without error while [*done] is not
    set.  A length prefix below 10 or above 2^20 is reported as
    [invalid_argument] and no body is read; otherwise exactly that many
    chars are read into [body_].  A body whose first char is not 0x81, or
    whose id is not the id presented, is reported as [fault]; a body with
    the type 0x81 and the id presented is reported as success with that
    id and the status at index 9.  Every failure carries the id 0 and the
    status 0. *)
Theorem handshake_reply_checked (s : Client.State) :
  Client.done s = false ->
  length (Client.lenbuf_ s) = 4%nat ->
  (forall prefix : list byte,
      length prefix = 4%nat ->
      let L := Proto.read_u32be prefix in
      let s' := Client.on_read_len ok prefix s in
      (L < 10 \/ 2 ^ 20 < L ->
         Client.handled s'
         = Client.handled s ++ [Client.hello_result invalid_argument 0 0]
         /\ Client.socket_op s' = None
         /\ Client.body_ s' = Client.body_ s)
      /\ (10 <= L <= 2 ^ 20 ->
          Client.handled s' = Client.handled s
          /\ Client.socket_op s'
             = Some (Client.op_read_body L, Client.in_flight)
          /\ size (Client.body_ s') = L))
  /\ (forall body : list byte,
        length body = length (Client.body_ s) ->
        10 <= size body ->
        let s' := Client.on_read_body ok body s in
        let type := u8 (Proto.at_ body 0) in
        let echoed := Proto.read_u64be (skipn 1 body) in
        (type <> Proto.MSG_HELLO_ACK \/ echoed <> Client.client_id s ->
           Client.handled s'
           = Client.handled s ++ [Client.hello_result fault 0 0])
        /\ (type = Proto.MSG_HELLO_ACK -> echoed = Client.client_id s ->
            Client.handled s'
            = Client.handled s
              ++ [Client.hello_result ok (Client.client_id s)
                    (u8 (Proto.at_ body 9))])).
Proof.
  intros Ed Hbuf. split.
  - intros prefix Hp L s'. split.
    + intros HL.
      assert (E : s' = Client.handler
                         (Client.hello_result invalid_argument 0 0)
                         (Client.cancel_timer
                            (Client.with_done true
                               (Client.with_socket_op None
                                  (Client.with_lenbuf prefix s)))))
        by (apply client_on_read_len_rejects; try assumption;
            change Client.kMax with (2 ^ 20); fold L; lia).
      clearbody s'. rewrite E. repeat split.
    + intros HL.
      assert (E : s' = Client.with_socket_op
                         (Some (Client.op_read_body
                                  (size (resize (Client.body_ s) L)),
                                Client.in_flight))
                         (Client.with_body (resize (Client.body_ s) L)
                            (Client.with_socket_op None
                               (Client.with_lenbuf prefix s))))
        by (apply client_on_read_len_accepts; try assumption;
            change Client.kMax with (2 ^ 20); fold L; lia).
      clearbody s'. rewrite E.
      cbn [Client.handled Client.socket_op Client.body_ Client.with_socket_op
           Client.with_body Client.with_lenbuf].
      rewrite resize_size by lia. repeat split.
  - intros body Hb Hsize s' type echoed.
    assert (E : s' = Client.handler (body_verdict (Client.client_id s) body)
                       (Client.cancel_timer
                          (Client.with_done true
                             (Client.with_socket_op None
                                (Client.with_body body s)))))
      by (apply client_on_read_body_ok; assumption).
    clearbody s'. rewrite E.
    cbn [Client.handled Client.handler Client.cancel_timer
         Client.with_timer_wait Client.with_done Client.with_socket_op
         Client.with_body].
    unfold body_verdict. fold type. fold echoed.
    destruct (Z.ltb_spec (size body) (1 + 8 + 1)); [lia|].
    destruct (Z.eqb_spec type Proto.MSG_HELLO_ACK) as [Ht|Ht];
      destruct (Z.eqb_spec echoed (Client.client_id s)) as [He|He];
      cbn [negb]; split;
      try (intros [H1|H1]; try contradiction; reflexivity);
      try (intros H1 H2; try contradiction; rewrite <- ?He; reflexivity).
Qed.

Lemma handshake_reply_checked_witness :
  Client.handled
    (Client.on_read_len ok [x00; x00; x00; x09]
       (Client.on_write ok (Client.async_handshake 42 5000 Client.new_client)))
  = [Client.hello_result invalid_argument 0 0].
Proof.
  apply (proj1 (proj1 (handshake_reply_checked
                         (Client.on_write ok
                            (Client.async_handshake 42 5000 Client.new_client))
                         eq_refl eq_refl)
                  [x00; x00; x00; x09] eq_refl)).
  left. vm_compute. reflexivity.
Defined.

(** ** The handshake, end to end *)

(** A session that awaits a length prefix reads the frame of a HELLO for
    [id] and queues the reply; on an empty queue the reply is written at
    once. *)
Lemma server_acks_hello (id : Z) (s : Server.Session) :
  0 <= id < 2 ^ 64 ->
  length (Server.lenbuf_ s) = 4%nat ->
  Server.read_op s = Some Server.RdLen ->
  1 + 8 <= Server.max_frame (Server.cfg_ s) ->
  wrap64 (Server.pending_bytes_ s + 14)
    <= Server.max_write_queue_bytes (Server.cfg_ s) ->
  exists s' : Server.Session,
    Server.run [Server.EvReadLen ok (Proto.write_u32be (1 + 8));
                Server.EvReadBody ok (hello_body id)] s = Some s'
    /\ Server.write_queue_ s'
       = Server.write_queue_ s ++ [Server.hello_ack_buf id 0]
    /\ (Server.write_queue_ s = [] ->
        Server.write_op s' = true
        /\ last_write (Server.calls s') = Some (Server.hello_ack_buf id 0)).
Proof.
  intros Hid Hlb Hrd Hframe Hqueue.
  set (prefix := Proto.write_u32be (1 + 8)).
  assert (Hpl : length prefix = 4%nat) by reflexivity.
  assert (HL : Proto.read_u32be prefix = 9) by reflexivity.
  set (s1 := Server.on_read_len ok prefix s).
  assert (E1 : s1 = Server.read_body
                      (Server.with_body (resize (Server.body_ s) 9)
                         (Server.with_read_op None
                            (Server.with_lenbuf prefix s)))).
  { subst s1. rewrite <- HL. apply on_read_len_accepts; try assumption.
    rewrite HL. lia. }
  assert (Hd1 : Server.deliver (Server.EvReadLen ok prefix) s = Some s1).
  { unfold Server.deliver, Server.enabled. rewrite Hrd.
    unfold size. rewrite Hpl, Hlb. reflexivity. }
  clearbody prefix. clearbody s1.
  assert (Hb1 : length (hello_body id) = length (Server.body_ s1)).
  { rewrite E1. cbn [Server.body_ Server.read_body Server.with_read_op
                      Server.call Server.refresh_timer Server.with_body].
    pose proof (resize_size (Server.body_ s) 9 ltac:(lia)) as Hr.
    unfold size in Hr. change (length (hello_body id)) with 9%nat. lia. }
  set (s2 := Server.on_read_body ok (hello_body id) s1).
  assert (Hd2 : Server.deliver (Server.EvReadBody ok (hello_body id)) s1
                = Some s2).
  { unfold Server.deliver, Server.enabled.
    replace (Server.read_op s1) with (Some Server.RdBody)
      by (rewrite E1; reflexivity).
    unfold size. rewrite Hb1, Z.leb_refl, Z.eqb_refl. reflexivity. }
  exists s2. split.
  { cbn [Server.run]. rewrite Hd1, Hd2. reflexivity. }
  set (s1' := Server.with_read_op None (Server.with_body (hello_body id) s1)).
  assert (E2 : s2 = Server.read_len (Server.handle_message s1'))
    by (apply on_read_body_ok; exact Hb1).
  clearbody s2.
  assert (Hhm : Server.handle_message s1'
                = Server.enqueue_write (Server.hello_ack_buf id 0)
                    (Server.cancel_timer s1')).
  { rewrite handle_message_long by (cbn; lia).
    change (Server.body_ s1') with (hello_body id).
    change (skipn 1 (hello_body id)) with (Proto.write_u64be id).
    rewrite read_write_u64be by exact Hid.
    change (Proto.at_ (hello_body id) 0) with (to_char Proto.MSG_HELLO).
    reflexivity. }
  set (s3 := Server.cancel_timer s1') in *.
  assert (Hp : Server.pending_bytes_ s3 = Server.pending_bytes_ s)
    by (subst s3 s1'; rewrite E1; reflexivity).
  assert (Hc : Server.cfg_ s3 = Server.cfg_ s)
    by (subst s3 s1'; rewrite E1; reflexivity).
  assert (Hq3 : Server.write_queue_ s3 = Server.write_queue_ s)
    by (subst s3 s1'; rewrite E1; reflexivity).
  clearbody s3.
  destruct (enqueue_write_within (Server.hello_ack_buf id 0) s3)
    as (Hq & _).
  { rewrite Hp, Hc, hello_ack_buf_size. exact Hqueue. }
  rewrite E2, Hhm.
  destruct (read_len_frame
              (Server.enqueue_write (Server.hello_ack_buf id 0) s3))
    as (Rq & _).
  rewrite Rq, Hq, Hq3. split; [reflexivity|].
  intros Hempty.
  assert (Ew : Server.enqueue_write (Server.hello_ack_buf id 0) s3
               = Server.do_write
                   (Server.with_write_queue [Server.hello_ack_buf id 0]
                      (Server.with_pending_bytes
                         (wrap64 (Server.pending_bytes_ s3 + 14)) s3))).
  { unfold Server.enqueue_write.
    cbn [Server.pending_bytes_ Server.with_pending_bytes Server.cfg_
         Server.write_queue_].
    rewrite hello_ack_buf_size, Hp, Hc, Z.gtb_ltb.
    destruct (Z.ltb_spec (Server.max_write_queue_bytes (Server.cfg_ s))
                (wrap64 (Server.pending_bytes_ s + 14))); [lia|].
    rewrite Hq3, Hempty. reflexivity. }
  rewrite Ew. unfold Server.do_write, Server.read_len.
  cbn [Server.write_queue_ Server.with_write_queue Server.write_op
       Server.with_write_op Server.with_read_op Server.call Server.calls
       Server.refresh_timer].
  split; [reflexivity|].
  unfold last_write. rewrite !fold_left_app. reflexivity.
Qed.

(** X13. A handshake against a session, end to end.  The request
    [async_handshake] builds for an id of 64 bits has 13 chars, and the
    write it starts is one of 13 chars.  The array of the request is
    released when [async_handshake] returns, so the code does not fix the
    chars that are sent; what follows is about a session that receives the
    chars of the request as built.  Such a session (when its [max_frame] is
    at least 9 and the reply fits in its empty write queue) accepts the
    frame and writes a reply; and that reply, read by the client, makes the
    client invoke its handler once, with success, the id presented and the
    status 0. *)
Theorem handshake_end_to_end
  (id timeout : Z) (c : Client.State) (s : Server.Session) :
  0 <= id < 2 ^ 64 ->
  length (Client.lenbuf_ c) = 4%nat ->
  length (Server.lenbuf_ s) = 4%nat ->
  Server.read_op s = Some Server.RdLen ->
  Server.write_queue_ s = [] ->
  1 + 8 <= Server.max_frame (Server.cfg_ s) ->
  wrap64 (Server.pending_bytes_ s + 14)
    <= Server.max_write_queue_bytes (Server.cfg_ s) ->
  exists (reply : list byte) (s' : Server.Session) (c' : Client.State),
    size (Client.hello_req id) = 13
    /\ Client.socket_op (Client.async_handshake id timeout c)
       = Some (Client.op_write 13, Client.in_flight)
    /\ Server.run [Server.EvReadLen ok (firstn 4 (Client.hello_req id));
                   Server.EvReadBody ok (skipn 4 (Client.hello_req id))] s
       = Some s'
    /\ Server.write_op s' = true
    /\ last_write (Server.calls s') = Some reply
    /\ Client.run Client.deliver_handshake
         [Client.WriteDone ok;
          Client.ReadLenDone ok (firstn 4 reply);
          Client.ReadBodyDone ok (skipn 4 reply)]
         (Client.async_handshake id timeout c) = Some c'
    /\ Client.handled c' = [Client.hello_result ok id 0].
Proof.
  intros Hid Hcl Hsl Hrd Hempty Hframe Hqueue.
  destruct (server_acks_hello id s Hid Hsl Hrd Hframe Hqueue)
    as (s' & Hrun & _ & Hw).
  destruct (Hw Hempty) as (Hwop & Hlast).
  exists (Server.hello_ack_buf id 0), s'.
  set (reply := Server.hello_ack_buf id 0).
  set (body := skipn 4 reply).
  assert (Hbody : body = to_char Proto.MSG_HELLO_ACK
                         :: Proto.write_u64be id ++ [to_char 0])
    by reflexivity.
  (* the client, step by step *)
  set (c0 := Client.async_handshake id timeout c).
  assert (Hc0 : Client.done c0 = false /\ Client.client_id c0 = id
                /\ Client.handled c0 = []
                /\ Client.lenbuf_ c0 = Client.lenbuf_ c
                /\ Client.socket_op c0
                   = Some (Client.op_write 13, Client.in_flight))
    by (repeat split).
  destruct Hc0 as (Hd0 & Hid0 & Hh0 & Hl0 & Ho0).
  clearbody c0.
  set (c1 := Client.on_write ok c0).
  assert (E1 : c1 = Client.with_socket_op
                      (Some (Client.op_read_lenbuf, Client.in_flight))
                      (Client.with_socket_op None c0))
    by (apply client_on_write_ok; exact Hd0).
  assert (Hs1 : Client.deliver_handshake (Client.WriteDone ok) c0 = Some c1)
    by (unfold Client.deliver_handshake; rewrite Ho0; reflexivity).
  clearbody c1.
  set (c2 := Client.on_read_len ok (firstn 4 reply) c1).
  assert (E2 : c2 = Client.with_socket_op
                      (Some (Client.op_read_body
                               (size (resize (Client.body_ c1) 10)),
                             Client.in_flight))
                      (Client.with_body (resize (Client.body_ c1) 10)
                         (Client.with_socket_op None
                            (Client.with_lenbuf (firstn 4 reply) c1)))).
  { subst c2.
    change 10 with (Proto.read_u32be (firstn 4 reply)).
    apply client_on_read_len_accepts.
    - rewrite E1. exact Hd0.
    - rewrite E1. cbn. rewrite Hl0. exact Hcl.
    - reflexivity.
    - vm_compute. split; discriminate. }
  assert (Hs2 : Client.deliver_handshake
                  (Client.ReadLenDone ok (firstn 4 reply)) c1 = Some c2)
    by (unfold Client.deliver_handshake;
        replace (Client.socket_op c1)
          with (Some (Client.op_read_lenbuf, Client.in_flight))
          by (rewrite E1; reflexivity);
        reflexivity).
  assert (Hd2 : Client.done c2 = false) by (rewrite E2, E1; exact Hd0).
  assert (Hid2 : Client.client_id c2 = id) by (rewrite E2, E1; exact Hid0).
  assert (Hh2 : Client.handled c2 = []) by (rewrite E2, E1; exact Hh0).
  assert (Hb2 : length body = length (Client.body_ c2)).
  { rewrite E2. cbn [Client.body_ Client.with_socket_op Client.with_body].
    pose proof (resize_size (Client.body_ c1) 10 ltac:(lia)) as Hr.
    unfold size in Hr. change (length body) with 10%nat. lia. }
  assert (Ho2 : exists n, Client.socket_op c2
                          = Some (Client.op_read_body n, Client.in_flight))
    by (rewrite E2; eexists; reflexivity).
  clearbody c2. clear E2.
  set (c3 := Client.on_read_body ok body c2).
  assert (E3 : c3 = Client.handler (body_verdict (Client.client_id c2) body)
                      (Client.cancel_timer
                         (Client.with_done true
                            (Client.with_socket_op None
                               (Client.with_body body c2)))))
    by (apply client_on_read_body_ok; assumption).
  assert (Hs3 : Client.deliver_handshake (Client.ReadBodyDone ok body) c2
                = Some c3).
  { unfold Client.deliver_handshake. destruct Ho2 as (n & ->). reflexivity. }
  clearbody c3.
  exists c3.
  split; [reflexivity|].
  split; [exact Ho0|].
  split; [exact Hrun|].
  split; [exact Hwop|].
  split; [exact Hlast|].
  split.
  { cbn [Client.run]. rewrite Hs1, Hs2, Hs3. reflexivity. }
  rewrite E3.
  cbn [Client.handled Client.handler Client.cancel_timer
       Client.with_timer_wait Client.with_done Client.with_socket_op
       Client.with_body].
  rewrite Hh2, Hid2. cbn [app]. f_equal.
  unfold body_verdict.
  assert (Hecho : Proto.read_u64be (skipn 1 body) = id).
  { rewrite Hbody. cbn [skipn]. unfold Proto.write_u64be. cbn [map app].
    rewrite read_u64be_prefix. apply read_write_u64be. exact Hid. }
  rewrite Hecho, !Z.eqb_refl. reflexivity.
Qed.

Lemma handshake_end_to_end_witness :
  exists (reply : list byte) (s' : Server.Session) (c' : Client.State),
    size (Client.hello_req 42) = 13
    /\ Client.socket_op (Client.async_handshake 42 5000 Client.new_client)
       = Some (Client.op_write 13, Client.in_flight)
    /\ Server.run [Server.EvReadLen ok (firstn 4 (Client.hello_req 42));
                   Server.EvReadBody ok (skipn 4 (Client.hello_req 42))]
         awaiting_length
       = Some s'
    /\ Server.write_op s' = true
    /\ last_write (Server.calls s') = Some reply
    /\ Client.run Client.deliver_handshake
         [Client.WriteDone ok;
          Client.ReadLenDone ok (firstn 4 reply);
          Client.ReadBodyDone ok (skipn 4 reply)]
         (Client.async_handshake 42 5000 Client.new_client) = Some c'
    /\ Client.handled c' = [Client.hello_result ok 42 0].
Proof.
  apply (handshake_end_to_end 42 5000 Client.new_client awaiting_length).
  - lia.
  - reflexivity.
  - reflexivity.
  - reflexivity.
  - reflexivity.
  - vm_compute. discriminate.
  - vm_compute. discriminate.
Defined.

(** ** The listener *)

Lemma accept_all_spec (ecs : list error_code) :
  forall a : Listener.AsyncServer,
    (0 < Listener.accepts a)%nat ->
    Listener.accepts (Listener.accept_all ecs a) = Listener.accepts a
    /\ Listener.cfg_ (Listener.accept_all ecs a) = Listener.cfg_ a
    /\ Listener.sessions (Listener.accept_all ecs a)
       = Listener.sessions a
         ++ map (fun _ => Server.start (Server.new_session (Listener.cfg_ a)))
              (filter (fun ec => negb (failed ec)) ecs).
Proof.
  induction ecs as [|ec ecs IH]; intros a Hpos.
  - cbn. rewrite app_nil_r. auto.
  - cbn [Listener.accept_all fold_left].
    fold (Listener.accept_all ecs (Listener.on_accept ec a)).
    destruct (IH (Listener.on_accept ec a)) as (Ha & Hc & Hs).
    { unfold Listener.on_accept. destruct (failed ec); cbn; lia. }
    rewrite Ha, Hc, Hs. unfold Listener.on_accept.
    destruct (failed ec) eqn:Ef; cbn [filter negb map]; rewrite ?Ef;
      cbn [Listener.accepts Listener.cfg_ Listener.sessions
           Listener.do_accept negb map].
    + repeat split. lia.
    + rewrite <- app_assoc. repeat split. lia.
Qed.

(** X14. The listener.  The constructor throws exactly when one of its four
    steps on the acceptor fails, and what it throws is a real error: that
    of the first step that failed.  Once [run()] has been called, whatever
    the accepts complete with, one [async_accept] is outstanding after
    every completion (a failed accept does not stop the loop), and the
    sessions made are one per accept that succeeded, in order, each
    started on the configuration of the server. *)
Theorem accept_loop_continues
  (cfg : Server.ServerConfig) (result : Listener.Step -> error_code) :
  match Listener.construct cfg result with
  | inl ec =>
      failed ec = true
      /\ exists step,
           ec = result step
           /\ forall earlier,
                (Listener.step_index earlier < Listener.step_index step)%nat ->
                result earlier = ok
  | inr a =>
      (forall step, result step = ok)
      /\ Listener.cfg_ a = cfg
      /\ Listener.sessions a = []
      /\ forall ecs : list error_code,
           let a' := Listener.accept_all ecs (Listener.run a) in
           Listener.accepts a' = 1%nat
           /\ Listener.sessions a'
              = map (fun _ => Server.start (Server.new_session cfg))
                  (filter (fun ec => negb (failed ec)) ecs)
           /\ length (Listener.sessions a')
              = length (filter (fun ec => negb (failed ec)) ecs)
  end.
Proof.
  assert (Hok : forall ec, failed ec = false -> ec = ok)
    by (intros []; intros H; try discriminate H; reflexivity).
  unfold Listener.construct.
  destruct (failed (result Listener.step_open)) eqn:E1.
  { split; [exact E1|]. exists Listener.step_open.
    split; [reflexivity|]. intros []; cbn; lia. }
  destruct (failed (result Listener.step_reuse_address)) eqn:E2.
  { split; [exact E2|]. exists Listener.step_reuse_address.
    split; [reflexivity|]. intros []; cbn; intros; auto; lia. }
  destruct (failed (result Listener.step_bind)) eqn:E3.
  { split; [exact E3|]. exists Listener.step_bind.
    split; [reflexivity|]. intros []; cbn; intros; auto; lia. }
  destruct (failed (result Listener.step_listen)) eqn:E4.
  { split; [exact E4|]. exists Listener.step_listen.
    split; [reflexivity|]. intros []; cbn; intros; auto; lia. }
  split; [intros []; auto|].
  split; [reflexivity|]. split; [reflexivity|].
  intros ecs.
  destruct (accept_all_spec ecs
              (Listener.run {| Listener.cfg_ := cfg; Listener.accepts := 0;
                               Listener.sessions := [] |}))
    as (Ha & _ & Hs); [cbn; lia|].
  rewrite Ha, Hs. cbn [Listener.run Listener.do_accept
                                 Listener.accepts Listener.sessions
                                 Listener.cfg_ app].
  repeat split. apply length_map.
Qed.

Lemma accept_loop_continues_witness :
  failed (sys 98) = true
  /\ exists step,
       sys 98 = Listener.bind_fails step
       /\ forall earlier,
            (Listener.step_index earlier < Listener.step_index step)%nat ->
            Listener.bind_fails earlier = ok.
Proof.
  exact (accept_loop_continues (Server.default_config 1) Listener.bind_fails).
Defined.
